(** * Robopopotniki: time-based motion controller and ultrasonic ranging

    A shallow embedding of the two Arduino sketches of the repository,
    [robotek.cpp] (open-loop differential drive on an ESP32 with an L298N
    bridge) and [sonar.cpp] (HC-SR04 ranging), followed by the properties
    that the specification states about them.

    Conventions of the embedding:
    - C [int] and [long] values are integers of [Z]; where the Arduino core
      does arithmetic on [long] the 32-bit wrap-around is written out;
    - C [float] is IEEE-754 binary32, modelled by the Standard Library's
      [spec_float] operations at precision 24 and maximal exponent 128;
    - the hardware touched by the sketches (direction lines, PWM duties, the
      millisecond clock) is an explicit [state]; every hardware call is also
      appended to a [trace], so what a call did can be read back;
    - [Serial] logging is not part of the model. *)

From Stdlib Require Import ZArith Bool List Lia QArith.
From Stdlib Require Import Floats.SpecFloat.
Import ListNotations.
Local Open Scope Z_scope.

(** [check_from n lo p]: the test [p] holds on the [n] integers [lo],
    [lo + 1], ..., [lo + n - 1]. *)
Fixpoint check_from (n : nat) (lo : Z) (p : Z -> bool) : bool :=
  match n with
  | O => true
  | S n' => p lo && check_from n' (lo + 1) p
  end.

(* ===================================================================== *)
(** * The Arduino core, as far as the sketches use it *)
(* ===================================================================== *)

(** The sketches include [Arduino.h]; what they take from it is not defined
    in the repository.  The definitions below follow the Arduino core for
    the ESP32 ([Arduino.h], [WMath.cpp]) and the C library: [constrain] and
    [map] for the duty conversion, [abs] and [round] on [float], the casts
    between the integer types and [float]. *)

Module Arduino.

(** ** Integers *)

Definition two32 : Z := 2 ^ 32.

(** A value stored in a 32-bit [unsigned long]. *)
Definition wrap_ulong (z : Z) : Z := z mod two32.

(** A value stored in a 32-bit signed [long]. *)
Definition wrap_long (z : Z) : Z := (z + 2 ^ 31) mod two32 - 2 ^ 31.

(** [#define constrain(amt,low,high)
      ((amt)<(low)?(low):((amt)>(high)?(high):(amt)))] *)
Definition constrain (amt low high : Z) : Z :=
  if amt <? low then low else if amt >? high then high else amt.

(** [long map(long x, long in_min, long in_max, long out_min, long out_max)]
    of the Arduino core, documented as using integer arithmetic only
    ("fractional remainders are truncated, not rounded"): arithmetic on
    [long], the division truncating toward zero ([Z.quot]).

    [const long run = in_max - in_min;
     if (run == 0) return -1;
     const long rise = out_max - out_min;
     const long delta = x - in_min;
     return (delta * rise) / run + out_min;] *)
Definition map (x in_min in_max out_min out_max : Z) : Z :=
  let run := wrap_long (in_max - in_min) in
  if run =? 0 then -1
  else
    let rise := wrap_long (out_max - out_min) in
    let delta := wrap_long (x - in_min) in
    wrap_long (wrap_long (Z.quot (wrap_long (delta * rise)) run) + out_min).

(** ** Levels of a digital line *)

Definition HIGH : bool := true.
Definition LOW : bool := false.

(** ** binary32 floating point *)

Definition float : Type := spec_float.

Definition prec : Z := 24.
Definition emax : Z := 128.

(** [x * y], [x / y], [abs(x)], [-x], [x == y], [x < y] and [x <= y] on
    [float]; a comparison with a NaN is false. *)
Definition fmul : float -> float -> float := SFmul prec emax.
Definition fdiv : float -> float -> float := SFdiv prec emax.
Definition fabs : float -> float := SFabs.
Definition fneg : float -> float := SFopp.
Definition feq : float -> float -> bool := SFeqb.
Definition flt : float -> float -> bool := SFltb.
Definition fle : float -> float -> bool := SFleb.

(** Conversion of an integer to [float] (round to nearest even). *)
Definition float_of_Z (z : Z) : float := binary_normalize prec emax z 0 false.

(** The [float] nearest to the decimal literal [num / den]. *)
Definition float_of_decimal (num den : Z) : float :=
  fdiv (float_of_Z num) (float_of_Z den).

Definition fzero : float := S754_zero false.

(** The rational number a finite [float] stands for. *)
Definition float_value (x : float) : option Q :=
  match x with
  | S754_zero _ => Some 0%Q
  | S754_finite s m e =>
      let z := if s then Zneg m else Zpos m in
      Some (if 0 <=? e then inject_Z (z * 2 ^ e)
            else Qmake z (Z.to_pos (2 ^ (- e))))
  | S754_infinity _ | S754_nan => None
  end.

(** C [round]: the nearest integer, halfway cases away from zero.  The
    result of [round] on a [float] argument is an integer that the result
    type represents exactly, so it is given as an integer of [Z]; [None]
    stands for the non-finite results (infinities and NaN). *)
Definition round (x : float) : option Z :=
  match x with
  | S754_zero _ => Some 0
  | S754_finite s m e =>
      let mag :=
        if 0 <=? e then Zpos m * 2 ^ e
        else (Zpos m + 2 ^ (- e - 1)) / 2 ^ (- e) in
      Some (if s then - mag else mag)
  | S754_infinity _ | S754_nan => None
  end.

(** The cast [(unsigned long) r] of a rounded value.  C++ defines it only
    when the value fits the 32-bit destination; otherwise the behaviour is
    undefined, which is [None] here. *)
Definition to_unsigned_long (r : option Z) : option Z :=
  match r with
  | Some z => if (0 <=? z) && (z <? two32) then Some z else None
  | None => None
  end.

(** What "n = round(q)" means on the rationals, independently of [round]:
    [n] is within one half of [q], a tie going away from zero. *)
Definition nearest_half_away (q : Q) (n : Z) : Prop :=
  (if Qle_bool 0 q
   then inject_Z n - (1 # 2) <= q /\ q < inject_Z n + (1 # 2)
   else inject_Z n - (1 # 2) < q /\ q <= inject_Z n + (1 # 2))%Q.

End Arduino.

(* ===================================================================== *)
(** * robotek.cpp *)
(* ===================================================================== *)

Module Robotek.
Import Arduino.

(** ** Pins, channels and calibration *)

Definition ENA : Z := 25.
Definition IN1 : Z := 26.
Definition IN2 : Z := 27.

Definition ENB : Z := 14.
Definition IN3 : Z := 12.
Definition IN4 : Z := 13.

Definition PWM_FREQ : Z := 2000.
Definition PWM_RESOLUTION : Z := 8.
Definition PWM_CHANNEL_LEFT : Z := 0.
Definition PWM_CHANNEL_RIGHT : Z := 1.

(** The two global calibration constants. *)
Record calibration : Type := {
  ms_per_cm : float;
  ms_per_degree : float
}.

(** [float ms_per_cm = 80.0;]  [float ms_per_degree = 8.4;]
    (80.0f is 0x42A00000 and 8.4f is 0x41066666). *)
Definition default_calibration : calibration := {|
  ms_per_cm := S754_finite false 10485760 (-17);
  ms_per_degree := S754_finite false 8808038 (-20)
|}.

(** ** speedPercentToPwm *)

(** [int speedPercentToPwm(int speedPercent) {
       speedPercent = constrain(speedPercent, 0, 100);
       return map(speedPercent, 0, 100, 0, 255); }] *)
Definition speedPercentToPwm (speedPercent : Z) : Z :=
  let speedPercent := constrain speedPercent 0 100 in
  map speedPercent 0 100 0 255.

(** ** Hardware state *)

(** What the bridge sees: the four direction lines and the two duties. *)
Record outputs : Type := {
  in1 : bool;
  in2 : bool;
  in3 : bool;
  in4 : bool;
  duty_left : Z;
  duty_right : Z
}.

(** The hardware calls of the sketch that act on the pins, on the PWM
    channels and on time.  The [Serial.print] calls of [driveForward]
    (lines 111-117) and of [rotate] (lines 156-162), which only log the
    request, and the reads of [millis()] are not events of the trace. *)
Inductive event : Type :=
| PinModeOutput (pin : Z)
| LedcSetup (channel freq resolution : Z)
| LedcAttachPin (pin channel : Z)
| DigitalWrite (pin : Z) (level : bool)
| LedcWrite (channel duty : Z)
| Delay (ms : Z).

(** [clock] is the time since boot in milliseconds; [trace] lists the
    hardware calls made so far, oldest first. *)
Record state : Type := {
  out : outputs;
  clock : Z;
  trace : list event
}.

(** Effect of one hardware call on the outputs. *)
Definition apply_event (e : event) (o : outputs) : outputs :=
  match e with
  | DigitalWrite pin level =>
      if pin =? IN1 then
        {| in1 := level; in2 := in2 o; in3 := in3 o; in4 := in4 o;
           duty_left := duty_left o; duty_right := duty_right o |}
      else if pin =? IN2 then
        {| in1 := in1 o; in2 := level; in3 := in3 o; in4 := in4 o;
           duty_left := duty_left o; duty_right := duty_right o |}
      else if pin =? IN3 then
        {| in1 := in1 o; in2 := in2 o; in3 := level; in4 := in4 o;
           duty_left := duty_left o; duty_right := duty_right o |}
      else if pin =? IN4 then
        {| in1 := in1 o; in2 := in2 o; in3 := in3 o; in4 := level;
           duty_left := duty_left o; duty_right := duty_right o |}
      else o
  | LedcWrite channel duty =>
      if channel =? PWM_CHANNEL_LEFT then
        {| in1 := in1 o; in2 := in2 o; in3 := in3 o; in4 := in4 o;
           duty_left := duty; duty_right := duty_right o |}
      else if channel =? PWM_CHANNEL_RIGHT then
        {| in1 := in1 o; in2 := in2 o; in3 := in3 o; in4 := in4 o;
           duty_left := duty_left o; duty_right := duty |}
      else o
  | PinModeOutput _ | LedcSetup _ _ _ | LedcAttachPin _ _ | Delay _ => o
  end.

(** Time one hardware call takes: [delay(ms)] blocks for [ms]
    milliseconds, the register writes take none. *)
Definition duration (e : event) : Z :=
  match e with
  | Delay ms => ms
  | _ => 0
  end.

Definition do_event (e : event) (s : state) : state :=
  {| out := apply_event e (out s);
     clock := clock s + duration e;
     trace := trace s ++ [e] |}.

Definition pinModeOutput (pin : Z) : state -> state :=
  do_event (PinModeOutput pin).
Definition ledcSetup (channel freq resolution : Z) : state -> state :=
  do_event (LedcSetup channel freq resolution).
Definition ledcAttachPin (pin channel : Z) : state -> state :=
  do_event (LedcAttachPin pin channel).
Definition digitalWrite (pin : Z) (level : bool) : state -> state :=
  do_event (DigitalWrite pin level).
Definition ledcWrite (channel duty : Z) : state -> state :=
  do_event (LedcWrite channel duty).
Definition delay (ms : Z) : state -> state :=
  do_event (Delay ms).

(** [millis()] returns the clock as a 32-bit [unsigned long]. *)
Definition millis (s : state) : Z := wrap_ulong (clock s).

(** The outputs after a list of hardware calls. *)
Definition outputs_after (evs : list event) (o : outputs) : outputs :=
  fold_left (fun o e => apply_event e o) evs o.

(** ** Direction of a motor, read from its two lines *)

Inductive direction : Type := Forward | Backward | Coast | Brake.

Definition line_direction (a b : bool) : direction :=
  match a, b with
  | true, false => Forward
  | false, true => Backward
  | false, false => Coast
  | true, true => Brake
  end.

Definition left_direction (o : outputs) : direction :=
  line_direction (in1 o) (in2 o).
Definition right_direction (o : outputs) : direction :=
  line_direction (in3 o) (in4 o).

(** Both duties zero, all four direction lines low. *)
Definition motors_stopped (o : outputs) : Prop :=
  duty_left o = 0 /\ duty_right o = 0 /\
  in1 o = LOW /\ in2 o = LOW /\ in3 o = LOW /\ in4 o = LOW.

(** ** Results of a call *)

(** A call returns in a state, or has undefined behaviour (the cast of an
    unrepresentable run time), or is cut by the bound on the number of
    polling rounds that the model puts on the wait loop. *)
Inductive outcome : Type :=
| Returned (s : state)
| Undefined
| OutOfFuel.

Definition bind (r : outcome) (k : state -> outcome) : outcome :=
  match r with
  | Returned s => k s
  | Undefined => Undefined
  | OutOfFuel => OutOfFuel
  end.

(** ** stopMotors *)

(** [ledcWrite(PWM_CHANNEL_LEFT, 0); ledcWrite(PWM_CHANNEL_RIGHT, 0);
     digitalWrite(IN1, LOW); digitalWrite(IN2, LOW);
     digitalWrite(IN3, LOW); digitalWrite(IN4, LOW);] *)
Definition stopMotors (s : state) : state :=
  let s := ledcWrite PWM_CHANNEL_LEFT 0 s in
  let s := ledcWrite PWM_CHANNEL_RIGHT 0 s in
  let s := digitalWrite IN1 LOW s in
  let s := digitalWrite IN2 LOW s in
  let s := digitalWrite IN3 LOW s in
  digitalWrite IN4 LOW s.

(** ** The timed wait *)

(** [while (millis() - start < runTimeMs) { delay(5); }]
    The subtraction is on [unsigned long]. *)
Fixpoint wait_loop (fuel : nat) (start runTimeMs : Z) (s : state) : outcome :=
  if wrap_ulong (millis s - start) <? runTimeMs then
    match fuel with
    | O => OutOfFuel
    | S fuel' => wait_loop fuel' start runTimeMs (delay 5 s)
    end
  else Returned s.

(** ** driveForward *)

(** [unsigned long runTimeMs =
       (unsigned long) round(distance_cm * ms_per_cm);] *)
Definition driveForward_runTimeMs (cal : calibration) (distance_cm : float)
  : option Z :=
  to_unsigned_long (round (fmul distance_cm (ms_per_cm cal))).

Definition driveForward (cal : calibration) (fuel : nat)
    (distance_cm : float) (speed_percent : Z) (s : state) : outcome :=
  if fle distance_cm fzero || (speed_percent <=? 0) then
    (* nothing to do *)
    Returned s
  else
    match driveForward_runTimeMs cal distance_cm with
    | None => Undefined
    | Some runTimeMs =>
        (* both motors forward *)
        let s := digitalWrite IN1 HIGH s in
        let s := digitalWrite IN2 LOW s in
        let s := digitalWrite IN3 HIGH s in
        let s := digitalWrite IN4 LOW s in
        (* apply PWM to the enable pins *)
        let pwmVal := speedPercentToPwm speed_percent in
        let s := ledcWrite PWM_CHANNEL_LEFT pwmVal s in
        let s := ledcWrite PWM_CHANNEL_RIGHT pwmVal s in
        (* run for the computed time *)
        let start := millis s in
        bind (wait_loop fuel start runTimeMs s)
             (fun s => Returned (stopMotors s))
    end.

(** ** rotate *)

(** [unsigned long runTimeMs =
       (unsigned long) round(abs(angle_deg) * ms_per_degree);] *)
Definition rotate_runTimeMs (cal : calibration) (angle_deg : float)
  : option Z :=
  to_unsigned_long (round (fmul (fabs angle_deg) (ms_per_degree cal))).

Definition rotate (cal : calibration) (fuel : nat)
    (angle_deg : float) (speed_percent : Z) (s : state) : outcome :=
  if feq angle_deg fzero || (speed_percent <=? 0) then
    Returned s
  else
    match rotate_runTimeMs cal angle_deg with
    | None => Undefined
    | Some runTimeMs =>
        let pwmVal := speedPercentToPwm speed_percent in
        let s :=
          if flt fzero angle_deg then
            (* turn right: left motor forward, right motor backward *)
            let s := digitalWrite IN1 HIGH s in
            let s := digitalWrite IN2 LOW s in
            let s := digitalWrite IN3 LOW s in
            digitalWrite IN4 HIGH s
          else
            (* turn left: left motor backward, right motor forward *)
            let s := digitalWrite IN1 LOW s in
            let s := digitalWrite IN2 HIGH s in
            let s := digitalWrite IN3 HIGH s in
            digitalWrite IN4 LOW s in
        let s := ledcWrite PWM_CHANNEL_LEFT pwmVal s in
        let s := ledcWrite PWM_CHANNEL_RIGHT pwmVal s in
        let start := millis s in
        bind (wait_loop fuel start runTimeMs s)
             (fun s => Returned (stopMotors s))
    end.

(** ** setup *)

(** Pin and PWM channel configuration, then [stopMotors()]. *)
Definition setup (s : state) : state :=
  let s := pinModeOutput IN1 s in
  let s := pinModeOutput IN2 s in
  let s := pinModeOutput IN3 s in
  let s := pinModeOutput IN4 s in
  let s := ledcSetup PWM_CHANNEL_LEFT PWM_FREQ PWM_RESOLUTION s in
  let s := ledcAttachPin ENA PWM_CHANNEL_LEFT s in
  let s := ledcSetup PWM_CHANNEL_RIGHT PWM_FREQ PWM_RESOLUTION s in
  let s := ledcAttachPin ENB PWM_CHANNEL_RIGHT s in
  stopMotors s.

(** ** loop *)

(** The demonstration of [loop()]:
    [rotate(90, 60); delay(1000); rotate(-90, 60); delay(1000);]
    up to the idle loop [while (true) { delay(1000); }], which it never
    leaves. *)
Definition loop (cal : calibration) (fuel : nat) (s : state) : outcome :=
  bind (rotate cal fuel (float_of_Z 90) 60 s) (fun s =>
  let s := delay 1000 s in
  bind (rotate cal fuel (float_of_Z (-90)) 60 s) (fun s =>
  Returned (delay 1000 s))).

(** ** The command interface *)

Inductive command : Type :=
| DriveForward (distance_cm : float) (speed_percent : Z)
| Rotate (angle_deg : float) (speed_percent : Z)
| StopMotors.

Definition call (cal : calibration) (fuel : nat) (c : command) (s : state)
  : outcome :=
  match c with
  | DriveForward d p => driveForward cal fuel d p s
  | Rotate a p => rotate cal fuel a p s
  | StopMotors => Returned (stopMotors s)
  end.

(** The states the sketch can be in between two commands: [setup] runs
    first, from whatever the hardware holds at power-on; then commands are
    called one after the other, with pauses ([delay]) between them. *)
Inductive reachable (cal : calibration) : state -> Prop :=
| reach_setup : forall s0, reachable cal (setup s0)
| reach_call : forall s fuel c s',
    reachable cal s -> call cal fuel c s = Returned s' -> reachable cal s'
| reach_delay : forall s ms, reachable cal s -> reachable cal (delay ms s).

(** ** Vocabulary of the properties *)

(** A list of hardware calls, made one after the other. *)
Definition run_events (evs : list event) (s : state) : state :=
  fold_left (fun s e => do_event e s) evs s.

(** The hardware calls a command made: the part of the trace of the final
    state [s'] that the initial state [s] did not have yet. *)
Definition new_events (s s' : state) : list event :=
  skipn (length (trace s)) (trace s').

(** The writes that start a forward drive, a right turn and a left turn
    with duty [pwmVal], and the writes of [stopMotors]. *)
Definition drive_writes (pwmVal : Z) : list event :=
  [DigitalWrite IN1 HIGH; DigitalWrite IN2 LOW;
   DigitalWrite IN3 HIGH; DigitalWrite IN4 LOW;
   LedcWrite PWM_CHANNEL_LEFT pwmVal; LedcWrite PWM_CHANNEL_RIGHT pwmVal].

Definition turn_right_writes (pwmVal : Z) : list event :=
  [DigitalWrite IN1 HIGH; DigitalWrite IN2 LOW;
   DigitalWrite IN3 LOW; DigitalWrite IN4 HIGH;
   LedcWrite PWM_CHANNEL_LEFT pwmVal; LedcWrite PWM_CHANNEL_RIGHT pwmVal].

Definition turn_left_writes (pwmVal : Z) : list event :=
  [DigitalWrite IN1 LOW; DigitalWrite IN2 HIGH;
   DigitalWrite IN3 HIGH; DigitalWrite IN4 LOW;
   LedcWrite PWM_CHANNEL_LEFT pwmVal; LedcWrite PWM_CHANNEL_RIGHT pwmVal].

(** The writes [rotate] starts with: a right turn for a positive angle,
    a left turn otherwise. *)
Definition turn_writes (angle_deg : float) (pwmVal : Z) : list event :=
  if flt fzero angle_deg then turn_right_writes pwmVal
  else turn_left_writes pwmVal.

Definition stop_writes : list event :=
  [LedcWrite PWM_CHANNEL_LEFT 0; LedcWrite PWM_CHANNEL_RIGHT 0;
   DigitalWrite IN1 LOW; DigitalWrite IN2 LOW;
   DigitalWrite IN3 LOW; DigitalWrite IN4 LOW].

(** [polls n]: [n] rounds of the wait loop. *)
Definition polls (n : nat) : list event := repeat (Delay 5) n.

(** Time during which the motors are driven (one duty at least is not
    zero) while the calls [evs] are made, starting from the outputs [o]. *)
Fixpoint driven_ms (evs : list event) (o : outputs) : Z :=
  match evs with
  | [] => 0
  | e :: evs' =>
      (if (duty_left o =? 0) && (duty_right o =? 0) then 0 else duration e)
      + driven_ms evs' (apply_event e o)
  end.

(** Hardware calls that take no time. *)
Definition instantaneous (evs : list event) : Prop :=
  forall e, In e evs -> duration e = 0.

(** [n] is the first round at which the wait loop sees that [runTimeMs]
    milliseconds have elapsed: the elapsed time, an [unsigned long], is
    [5 * k] modulo [2 ^ 32] after [k] rounds. *)
Definition first_exit (runTimeMs : Z) (n : nat) : Prop :=
  runTimeMs <= wrap_ulong (5 * Z.of_nat n) /\
  (forall k, (k < n)%nat -> wrap_ulong (5 * Z.of_nat k) < runTimeMs).

(** The hardware at power-on, before [setup]: lines low, duties zero. *)
Definition power_on : state :=
  {| out := {| in1 := LOW; in2 := LOW; in3 := LOW; in4 := LOW;
               duty_left := 0; duty_right := 0 |};
     clock := 0;
     trace := [] |}.

(** The commands that take the early return of [driveForward] or of
    [rotate]. *)
Definition is_noop (c : command) : bool :=
  match c with
  | DriveForward d p => fle d fzero || (p <=? 0)
  | Rotate a p => feq a fzero || (p <=? 0)
  | StopMotors => false
  end.

(** The run time of a command is computed without undefined behaviour,
    or the command returns before computing it. *)
Definition well_defined (cal : calibration) (c : command) : bool :=
  is_noop c ||
  match c with
  | DriveForward d _ =>
      match driveForward_runTimeMs cal d with Some _ => true | None => false end
  | Rotate a _ =>
      match rotate_runTimeMs cal a with Some _ => true | None => false end
  | StopMotors => true
  end.

(** ** Vocabulary of the further properties *)

(** Outputs the bridge can take at any instant: no motor has both of its
    lines high, and both duties fit the 8-bit PWM resolution. *)
Definition safe_outputs (o : outputs) : bool :=
  negb (in1 o && in2 o) && negb (in3 o && in4 o) &&
  (0 <=? duty_left o) && (duty_left o <=? 255) &&
  (0 <=? duty_right o) && (duty_right o <=? 255).

(** The outputs are safe before the calls [evs], between any two of them,
    and after them. *)
Fixpoint always_safe (evs : list event) (o : outputs) : bool :=
  match evs with
  | [] => safe_outputs o
  | e :: evs' => safe_outputs o && always_safe evs' (apply_event e o)
  end.

(** The hardware calls of a motion command: a write on one of the four
    direction pins, a duty of 0..255 on one of the two PWM channels, or a
    5 ms pause. *)
Definition motion_event (e : event) : bool :=
  match e with
  | DigitalWrite pin _ =>
      (pin =? IN1) || (pin =? IN2) || (pin =? IN3) || (pin =? IN4)
  | LedcWrite channel duty =>
      ((channel =? PWM_CHANNEL_LEFT) || (channel =? PWM_CHANNEL_RIGHT)) &&
      (0 <=? duty) && (duty <=? 255)
  | Delay ms => ms =? 5
  | PinModeOutput _ | LedcSetup _ _ _ | LedcAttachPin _ _ => false
  end.

(** [n] is the first round at which the wait loop sees the run time [r]
    elapsed, [r] being a run time that was computed without undefined
    behaviour. *)
Definition first_exit_of (r : option Z) (n : nat) : Prop :=
  match r with
  | Some runTimeMs => first_exit runTimeMs n
  | None => False
  end.

(** The outputs with both motors stopped. *)
Definition stopped_outputs : outputs :=
  {| in1 := LOW; in2 := LOW; in3 := LOW; in4 := LOW;
     duty_left := 0; duty_right := 0 |}.

(** Commands called one after the other, as a caller of the command
    interface does. *)
Fixpoint run_commands (cal : calibration) (fuel : nat) (cs : list command)
    (s : state) : outcome :=
  match cs with
  | [] => Returned s
  | c :: cs' => bind (call cal fuel c s) (run_commands cal fuel cs')
  end.

(** The commands of a list that do not take the early return. *)
Definition effective (cs : list command) : list command :=
  filter (fun c => negb (is_noop c)) cs.

(** ** The specification's reading of the duty conversion *)

(** "clamped to [0,100]" *)
Definition clamp_percent (percent : Z) : Z := Z.max 0 (Z.min 100 percent).

(** "[n] is [num / den] rounded to the nearest integer": no integer is
    closer to the quotient than [n]. *)
Definition nearest_integer (num den n : Z) : Prop :=
  2 * Z.abs (n * den - num) <= den.

(** "[duty = round(percent * 255 / 100)]" after the clamp. *)
Definition rounded_duty (percent duty : Z) : Prop :=
  nearest_integer (clamp_percent percent * 255) 100 duty.

End Robotek.

(* ===================================================================== *)
(** * sonar.cpp *)
(* ===================================================================== *)

Module Sonar.
Import Arduino.

Definition TRIG_PIN : Z := 4.
Definition ECHO_PIN : Z := 5.

(** The time-out handed to [pulseIn], in microseconds: [30000UL]. *)
Definition ECHO_TIMEOUT_US : Z := 30000.

(** The hardware calls of [measureDistanceCm]. *)
Inductive event : Type :=
| DigitalWrite (pin : Z) (level : bool)
| DelayMicroseconds (us : Z)
| PulseIn (pin : Z) (level : bool) (timeout : Z)
| Delay (ms : Z).

(** What the sensor answers to one trigger: no echo pulse within the
    time-out, or an echo pulse that lasted [us] microseconds. *)
Inductive echo : Type :=
| NoEcho
| Echo (us : Z).

(** An echo pulse that [pulseIn] measures has a positive length, and fits
    the time-out that bounds the whole measurement. *)
Definition echo_ok (e : echo) : Prop :=
  match e with
  | NoEcho => True
  | Echo us => 0 < us <= ECHO_TIMEOUT_US
  end.

(** [unsigned long pulseIn(pin, state, timeout)] of the Arduino core: the
    length of the pulse in microseconds, or 0 if no complete pulse was
    received within the time-out. *)
Definition pulseIn (e : echo) : Z :=
  match e with
  | NoEcho => 0
  | Echo us => wrap_ulong us
  end.

(** The literals [-1.0], [0.0343f] and [2.0f] as binary32
    (0xBF800000, 0x3D0C7E28 and 0x40000000). *)
Definition minus_one : float := S754_finite true 8388608 (-23).
Definition cm_per_us : float := S754_finite false 9207336 (-28).
Definition two : float := S754_finite false 8388608 (-22).

(** [float measureDistanceCm()]: the trigger pulse, then
    [long duration = pulseIn(ECHO_PIN, HIGH, 30000UL);
     if (duration == 0) return -1.0;
     float distance_cm = (duration * 0.0343f) / 2.0f;
     return distance_cm;]
    The answer of the sensor is the argument [e]; the hardware calls are
    appended to the trace [t]. *)
Definition measureDistanceCm (e : echo) (t : list event)
  : float * list event :=
  let t := t ++ [DigitalWrite TRIG_PIN LOW; DelayMicroseconds 2] in
  let t := t ++ [DigitalWrite TRIG_PIN HIGH; DelayMicroseconds 10;
                 DigitalWrite TRIG_PIN LOW] in
  let duration := wrap_long (pulseIn e) in
  let t := t ++ [PulseIn ECHO_PIN HIGH ECHO_TIMEOUT_US] in
  if duration =? 0 then
    (* no echo received (timeout) *)
    (minus_one, t)
  else
    let distance_cm := fdiv (fmul (float_of_Z duration) cm_per_us) two in
    (distance_cm, t).

(** The distance in centimetres that an echo of [us] microseconds
    stands for: sound travels 0.0343 cm per microsecond, there and
    back. *)
Definition exact_distance_cm (us : Z) : Q :=
  (inject_Z us * (343 # 10000) / 2)%Q.

(** [d] is the distance [x] up to the relative error [1e-7] of the
    [float] computation. *)
Definition close_to (d : float) (x : Q) : bool :=
  match float_value d with
  | Some q =>
      Qle_bool (x * (9999999 # 10000000)) q &&
      Qle_bool q (x * (10000001 # 10000000))
  | None => false
  end.

(** What [loop()] prints for one measurement. *)
Inductive report : Type :=
| NoEchoDetected
| Distance (d : float).

(** [float d = measureDistanceCm();
     if (d < 0) Serial.println("No echo detected.");
     else { Serial.print("Distance: "); Serial.print(d); ... }
     delay(200);] *)
Definition loop (e : echo) (t : list event) : report * list event :=
  let (d, t) := measureDistanceCm e t in
  let r := if flt d (float_of_Z 0) then NoEchoDetected else Distance d in
  (r, t ++ [Delay 200]).

(** The distance returned for an echo of [us] microseconds, as a rational
    number (0 if the result were not finite). *)
Definition distance_value (us : Z) : Q :=
  match float_value (fst (measureDistanceCm (Echo us) [])) with
  | Some q => q
  | None => 0%Q
  end.

Definition Qlt_bool (x y : Q) : bool := negb (Qle_bool y x).

(** The value returned for an echo of [us] microseconds. *)
Definition measured (us : Z) : float :=
  fst (measureDistanceCm (Echo us) []).

(** More facts checked on the result [d] for an echo length and the result
    [d'] for the next one: [d] is finite, lies between 0.017 cm and 515 cm,
    and is strictly below [d']. *)
Definition step_ok (d d' : float) : bool :=
  match float_value d, float_value d' with
  | Some q, Some q' =>
      Qle_bool (17 # 1000) q && Qle_bool q (515 # 1) &&
      Qlt_bool q q' && flt d d'
  | _, _ => false
  end.

(** [steps_ok n us d]: [step_ok] holds on the [n] echo lengths from [us]
    on, [d] being the result for [us]. *)
Fixpoint steps_ok (n : nat) (us : Z) (d : float) : bool :=
  match n with
  | O => true
  | S n' =>
      let d' := measured (us + 1) in
      step_ok d d' && steps_ok n' (us + 1) d'
  end.

(** The facts checked on each echo length: the distance is positive,
    is not below zero, and is accurate. *)
Definition echo_check (us : Z) : bool :=
  let d := fst (measureDistanceCm (Echo us) []) in
  flt fzero d && negb (flt d (float_of_Z 0)) && close_to d (exact_distance_cm us).

End Sonar.

(* ===================================================================== *)
(** * Properties *)
(* ===================================================================== *)

Import Arduino Robotek.

(** ** Bounded checks *)

Lemma check_from_spec (p : Z -> bool) :
  forall n lo, check_from n lo p = true ->
  forall z, lo <= z < lo + Z.of_nat n -> p z = true.
Proof.
  induction n as [|n IH]; intros lo Hc z Hz.
  - simpl in Hz. lia.
  - simpl in Hc. apply andb_true_iff in Hc. destruct Hc as [Hlo Hrest].
    destruct (Z.eq_dec z lo) as [->|Hne]; [exact Hlo|].
    apply (IH (lo + 1) Hrest). lia.
Qed.

(** ** The floating-point literals of the sketches *)

Section Literals.

Lemma ms_per_cm_literal :
  ms_per_cm default_calibration = float_of_Z 80.
Proof. reflexivity. Qed.

Lemma ms_per_degree_literal :
  ms_per_degree default_calibration = float_of_decimal 84 10.
Proof. reflexivity. Qed.

Lemma sonar_literals :
  Sonar.minus_one = float_of_Z (-1) /\
  Sonar.cm_per_us = float_of_decimal 343 10000 /\
  Sonar.two = float_of_Z 2.
Proof. repeat split. Qed.

End Literals.

(** ** The duty conversion *)

Section DutyConversion.

Lemma constrain_percent (p : Z) : constrain p 0 100 = clamp_percent p.
Proof.
  unfold constrain, clamp_percent.
  destruct (Z.ltb_spec p 0); [lia|].
  destruct (p >? 100) eqn:E.
  - apply Z.gtb_lt in E. lia.
  - assert (p <= 100) by (destruct (Z.gtb_spec p 100); [discriminate|lia]).
    lia.
Qed.

Lemma clamp_percent_range (p : Z) : 0 <= clamp_percent p <= 100.
Proof. unfold clamp_percent. lia. Qed.

(** On a percentage, [map] is the truncated quotient. *)
Lemma map_percent (c : Z) :
  0 <= c <= 100 -> map c 0 100 0 255 = c * 255 / 100.
Proof.
  intros Hc.
  assert (Hall : check_from 101 0
            (fun c => map c 0 100 0 255 =? c * 255 / 100) = true)
    by (vm_compute; reflexivity).
  apply Z.eqb_eq.
  apply (check_from_spec _ 101 0 Hall). simpl. lia.
Qed.

Lemma speedPercentToPwm_floor (p : Z) :
  speedPercentToPwm p = clamp_percent p * 255 / 100.
Proof.
  unfold speedPercentToPwm. rewrite constrain_percent.
  apply map_percent, clamp_percent_range.
Qed.

Lemma speedPercentToPwm_range (p : Z) : 0 <= speedPercentToPwm p <= 255.
Proof.
  rewrite speedPercentToPwm_floor.
  pose proof (clamp_percent_range p) as H.
  split.
  - apply Z.div_pos; lia.
  - apply Z.div_le_upper_bound; lia.
Qed.

Lemma speedPercentToPwm_positive (p : Z) : 0 < p -> 2 <= speedPercentToPwm p.
Proof.
  intros Hp. rewrite speedPercentToPwm_floor.
  assert (1 <= clamp_percent p) by (unfold clamp_percent; lia).
  apply Z.div_le_lower_bound; lia.
Qed.

Lemma speedPercentToPwm_over_range (p : Z) :
  100 < p -> speedPercentToPwm p = 255.
Proof.
  intros Hp. rewrite speedPercentToPwm_floor.
  replace (clamp_percent p) with 100 by (unfold clamp_percent; lia).
  reflexivity.
Qed.

(** C1, as stated, fails: at 1 percent the exact duty is 2.55, whose
    nearest integer is 3, and [speedPercentToPwm] returns 2. *)
Lemma speedPercentToPwm_one_percent_not_rounded :
  speedPercentToPwm 1 = 2 /\
  rounded_duty 1 3 /\
  ~ rounded_duty 1 (speedPercentToPwm 1).
Proof.
  split; [reflexivity|]. split.
  - unfold rounded_duty, nearest_integer. simpl. lia.
  - unfold rounded_duty, nearest_integer. simpl. lia.
Qed.

(** C1, amended: for every [speedPercent], [speedPercentToPwm] clamps the
    input to [0,100] and returns [percent * 255 / 100] with the integer
    division rounding down: the largest integer duty that is not above
    the linearly scaled value, between 0 and 255. *)
Theorem speedPercentToPwm_clamps_and_truncates (speedPercent : Z) :
  let percent := clamp_percent speedPercent in
  let duty := speedPercentToPwm speedPercent in
  duty = percent * 255 / 100 /\
  duty * 100 <= percent * 255 < (duty + 1) * 100 /\
  0 <= duty <= 255.
Proof.
  cbv zeta. split; [apply speedPercentToPwm_floor|]. split.
  - rewrite speedPercentToPwm_floor.
    pose proof (Z.div_mod (clamp_percent speedPercent * 255) 100) as Hd.
    pose proof (Z.mod_pos_bound (clamp_percent speedPercent * 255) 100) as Hm.
    lia.
  - apply speedPercentToPwm_range.
Qed.

(** C7: below 0 the result is that of 0, above 100 it is that of 100. *)
Theorem speedPercentToPwm_saturates (speedPercent : Z) :
  (speedPercent < 0 -> speedPercentToPwm speedPercent = speedPercentToPwm 0) /\
  (100 < speedPercent -> speedPercentToPwm speedPercent = speedPercentToPwm 100).
Proof.
  split; intros H; rewrite !speedPercentToPwm_floor; f_equal; f_equal;
    unfold clamp_percent; lia.
Qed.

Lemma speedPercentToPwm_saturates_witness :
  speedPercentToPwm (-5) = speedPercentToPwm 0 /\
  speedPercentToPwm 250 = speedPercentToPwm 100.
Proof.
  split.
  - apply (proj1 (speedPercentToPwm_saturates (-5))). lia.
  - apply (proj2 (speedPercentToPwm_saturates 250)). lia.
Defined.

End DutyConversion.

(** ** Hardware calls and traces *)

Section Traces.

Lemma run_events_app (a b : list event) (s : state) :
  run_events (a ++ b) s = run_events b (run_events a s).
Proof. apply fold_left_app. Qed.

Lemma out_run_events (evs : list event) :
  forall s, out (run_events evs s) = outputs_after evs (out s).
Proof.
  induction evs as [|e evs IH]; intros s; [reflexivity|].
  simpl. rewrite IH. reflexivity.
Qed.

Lemma trace_run_events (evs : list event) :
  forall s, trace (run_events evs s) = trace s ++ evs.
Proof.
  induction evs as [|e evs IH]; intros s; simpl.
  - symmetry. apply app_nil_r.
  - rewrite IH. simpl. rewrite <- app_assoc. reflexivity.
Qed.

Lemma skipn_length_app {A : Type} (l l' : list A) :
  skipn (length l) (l ++ l') = l'.
Proof. induction l as [|x l IH]; simpl; auto. Qed.

Lemma new_events_run_events (evs : list event) (s : state) :
  new_events s (run_events evs s) = evs.
Proof.
  unfold new_events. rewrite trace_run_events. apply skipn_length_app.
Qed.

Lemma clock_run_polls (n : nat) :
  forall s, clock (run_events (polls n) s) = clock s + 5 * Z.of_nat n.
Proof.
  induction n as [|n IH]; intros s.
  - simpl. lia.
  - change (polls (S n)) with (Delay 5 :: polls n).
    change (run_events (Delay 5 :: polls n) s)
      with (run_events (polls n) (delay 5 s)).
    rewrite IH. unfold delay, do_event. simpl clock. lia.
Qed.

Lemma out_run_polls (n : nat) :
  forall s, out (run_events (polls n) s) = out s.
Proof.
  induction n as [|n IH]; intros s; [reflexivity|].
  change (run_events (polls (S n)) s)
    with (run_events (polls n) (delay 5 s)).
  rewrite IH. reflexivity.
Qed.

Lemma stopMotors_run_events (s : state) :
  stopMotors s = run_events stop_writes s.
Proof. reflexivity. Qed.

Lemma clock_stopMotors (s : state) : clock (stopMotors s) = clock s.
Proof. unfold stopMotors, digitalWrite, ledcWrite, do_event. simpl. lia. Qed.

Lemma stopMotors_stops (s : state) : motors_stopped (out (stopMotors s)).
Proof. repeat split. Qed.

Lemma motors_stopped_coast (o : outputs) :
  motors_stopped o -> left_direction o = Coast /\ right_direction o = Coast.
Proof.
  intros (_ & _ & H1 & H2 & H3 & H4).
  unfold left_direction, right_direction. rewrite H1, H2, H3, H4.
  split; reflexivity.
Qed.

End Traces.

(** ** The wait loop *)

Section WaitLoop.

Variables (start runTimeMs : Z).

(** A run of the loop that returns went through some number of rounds,
    none of which but the last saw the run time elapsed. *)
Lemma wait_loop_returned :
  forall fuel s s',
    wait_loop fuel start runTimeMs s = Returned s' ->
    exists n, (n <= fuel)%nat /\ s' = run_events (polls n) s /\
      runTimeMs <= wrap_ulong (millis s' - start) /\
      (forall k, (k < n)%nat ->
        wrap_ulong (millis (run_events (polls k) s) - start) < runTimeMs).
Proof.
  assert (Hnow : forall s s' : state,
             runTimeMs <= wrap_ulong (millis s - start) -> Returned s = Returned s' ->
             exists n, (n <= 0)%nat /\ s' = run_events (polls n) s /\
               runTimeMs <= wrap_ulong (millis s' - start) /\
               (forall k, (k < n)%nat ->
                  wrap_ulong (millis (run_events (polls k) s) - start) < runTimeMs)).
  { intros s s' Hge H. injection H as <-. exists O.
    split; [lia|]. split; [reflexivity|]. split; [exact Hge|].
    intros k Hk. lia. }
  induction fuel as [|fuel IH]; intros s s'; simpl;
    destruct (Z.ltb_spec (wrap_ulong (millis s - start)) runTimeMs) as [Hlt|Hge];
    intros H; try discriminate.
  - apply (Hnow _ _ Hge H).
  - destruct (IH _ _ H) as (n & Hn & Hs' & Hexit & Hbefore).
    exists (S n). split; [lia|]. split; [exact Hs'|]. split; [exact Hexit|].
    intros [|k] Hk; [exact Hlt|].
    apply (Hbefore k). lia.
  - destruct (Hnow _ _ Hge H) as (n & Hn & Hrest).
    exists n. split; [lia|exact Hrest].
Qed.

(** If some round sees the run time elapsed, the loop returns, given
    that many rounds. *)
Lemma wait_loop_reaches :
  forall n s,
    runTimeMs <= wrap_ulong (millis (run_events (polls n) s) - start) ->
    exists s', wait_loop n start runTimeMs s = Returned s'.
Proof.
  induction n as [|n IH]; intros s H; simpl;
    destruct (Z.ltb_spec (wrap_ulong (millis s - start)) runTimeMs) as [Hlt|Hge];
    eauto.
  simpl in H. lia.
Qed.

End WaitLoop.

Section WaitLoopClock.

(** Elapsed time seen by the loop after [k] rounds, when [start] was read
    just before the loop. *)
Lemma elapsed_after_polls (s : state) (k : nat) :
  wrap_ulong (millis (run_events (polls k) s) - millis s)
  = wrap_ulong (5 * Z.of_nat k).
Proof.
  unfold millis, wrap_ulong. rewrite clock_run_polls.
  rewrite <- Zminus_mod. f_equal. lia.
Qed.

Lemma wait_loop_first_exit (fuel : nat) (r : Z) (s s' : state) :
  wait_loop fuel (millis s) r s = Returned s' ->
  exists n, s' = run_events (polls n) s /\ first_exit r n.
Proof.
  intros H. destruct (wait_loop_returned _ _ _ _ _ H) as (n & _ & Hs' & He & Hb).
  exists n. split; [exact Hs'|]. split.
  - rewrite <- (elapsed_after_polls s n), <- Hs'. exact He.
  - intros k Hk. rewrite <- (elapsed_after_polls s k). apply Hb, Hk.
Qed.

Lemma first_exit_unique (r : Z) (n m : nat) :
  first_exit r n -> first_exit r m -> n = m.
Proof.
  intros [Hn Hn'] [Hm Hm'].
  destruct (Nat.lt_trichotomy n m) as [Hlt|[Heq|Hgt]]; [|exact Heq|].
  - specialize (Hm' n Hlt). lia.
  - specialize (Hn' m Hgt). lia.
Qed.

(** Away from the wrap-around of the clock difference, the loop makes
    [runTimeMs / 5] rounds, rounded up. *)
Lemma first_exit_ceil (r : Z) (n : nat) :
  0 <= r <= two32 - 5 ->
  first_exit r n -> Z.of_nat n = (r + 4) / 5.
Proof.
  unfold first_exit, wrap_ulong, two32. change (2 ^ 32) with 4294967296.
  intros Hr [Hexit Hbefore].
  set (n0 := (r + 4) / 5).
  assert (Hn0 : 5 * n0 <= r + 4 < 5 * n0 + 5)
    by (unfold n0; pose proof (Z.div_mod (r + 4) 5);
        pose proof (Z.mod_pos_bound (r + 4) 5); lia).
  destruct (Z.lt_trichotomy (Z.of_nat n) n0) as [Hlt|[Heq|Hgt]]; [|exact Heq|].
  - rewrite Z.mod_small in Hexit by lia. lia.
  - specialize (Hbefore (Z.to_nat n0)).
    rewrite Z2Nat.id in Hbefore by lia.
    rewrite Z.mod_small in Hbefore by lia.
    assert (5 * n0 < r) by (apply Hbefore; lia). lia.
Qed.

(** The largest [unsigned long], [2 ^ 32 - 1], is a multiple of 5: rounding
    a run time up to a multiple of 5 never passes it, so the clock
    difference of the loop reaches every run time before it wraps. *)
Lemma first_exit_rounds (r : Z) (n : nat) :
  0 <= r < two32 -> first_exit r n -> Z.of_nat n = (r + 4) / 5.
Proof.
  unfold first_exit, wrap_ulong, two32. change (2 ^ 32) with 4294967296.
  intros Hr [Hexit Hbefore].
  set (n0 := (r + 4) / 5).
  assert (Hn0 : 5 * n0 <= r + 4 < 5 * n0 + 5)
    by (unfold n0; pose proof (Z.div_mod (r + 4) 5);
        pose proof (Z.mod_pos_bound (r + 4) 5); lia).
  destruct (Z.lt_trichotomy (Z.of_nat n) n0) as [Hlt|[Heq|Hgt]]; [|exact Heq|].
  - rewrite Z.mod_small in Hexit by lia. lia.
  - specialize (Hbefore (Z.to_nat n0)).
    rewrite Z2Nat.id in Hbefore by lia.
    rewrite Z.mod_small in Hbefore by lia.
    assert (5 * n0 < r) by (apply Hbefore; lia). lia.
Qed.

(** 5 is invertible modulo [2 ^ 32], so the elapsed time takes every
    value of an [unsigned long]: the loop always ends. *)
Lemma some_round_exits (r : Z) :
  0 <= r < two32 ->
  exists n : nat, wrap_ulong (5 * Z.of_nat n) = r.
Proof.
  unfold wrap_ulong, two32. change (2 ^ 32) with 4294967296. intros Hr.
  exists (Z.to_nat ((r * 3435973837) mod 4294967296)).
  rewrite Z2Nat.id by (apply Z.mod_pos_bound; lia).
  rewrite Z.mul_mod_idemp_r by lia.
  replace (5 * (r * 3435973837)) with (r + (4 * r) * 4294967296) by lia.
  rewrite Z.mod_add by lia. apply Z.mod_small. lia.
Qed.

Lemma wait_loop_terminates (r : Z) (s : state) :
  0 <= r < two32 ->
  exists fuel s', wait_loop fuel (millis s) r s = Returned s'.
Proof.
  intros Hr. destruct (some_round_exits r Hr) as [n Hn].
  exists n. apply wait_loop_reaches.
  rewrite elapsed_after_polls, Hn. lia.
Qed.

End WaitLoopClock.

(** ** Rounding a [float] to an integer *)

Section Rounding.

(** [nearest_half_away] on a fraction, in integer terms. *)
Lemma nearest_half_away_frac (a : Z) (b : positive) (n : Z) :
  nearest_half_away (a # b) n <->
  if 0 <=? a
  then (2 * n - 1) * Zpos b <= 2 * a /\ 2 * a < (2 * n + 1) * Zpos b
  else (2 * n - 1) * Zpos b < 2 * a /\ 2 * a <= (2 * n + 1) * Zpos b.
Proof.
  unfold nearest_half_away, Qle_bool, Qle, Qlt, Qminus, Qplus, Qopp, inject_Z.
  simpl Qnum. simpl Qden.
  replace (0 * Z.pos b <=? a * 1) with (0 <=? a)
    by (destruct (Z.leb_spec 0 a), (Z.leb_spec (0 * Z.pos b) (a * 1)); lia).
  destruct (0 <=? a); lia.
Qed.

Lemma nearest_half_away_unique (q : Q) (n n' : Z) :
  nearest_half_away q n -> nearest_half_away q n' -> n = n'.
Proof.
  destruct q as [a b]. rewrite !nearest_half_away_frac.
  pose proof (Pos2Z.is_pos b).
  destruct (0 <=? a); intros [H1 H2] [H3 H4]; nia.
Qed.

(** [round] returns the nearest integer of the value of its argument,
    ties away from zero. *)
Lemma round_nearest (x : float) (n : Z) :
  round x = Some n ->
  exists q, float_value x = Some q /\ nearest_half_away q n.
Proof.
  destruct x as [s|s| |s m e]; unfold round, float_value; try discriminate.
  - intros H. injection H as <-. exists (0 # 1). split; [reflexivity|].
    apply nearest_half_away_frac. simpl. lia.
  - cbv zeta. intros H.
    assert (Hn : forall a b : Z, Some a = Some b -> a = b) by congruence.
    apply Hn in H. clear Hn. subst n.
    destruct (Z.leb_spec 0 e) as [He|He].
    + eexists. split; [reflexivity|].
      unfold inject_Z. apply nearest_half_away_frac.
      assert (Hp : 0 < 2 ^ e) by (apply Z.pow_pos_nonneg; lia).
      assert (Hm : 0 < Z.pos m * 2 ^ e) by lia.
      destruct s.
      * replace (Z.neg m * 2 ^ e) with (- (Z.pos m * 2 ^ e)) by lia.
        set (v := Z.pos m * 2 ^ e) in *.
        destruct (Z.leb_spec 0 (- v)); lia.
      * set (v := Z.pos m * 2 ^ e) in *.
        destruct (Z.leb_spec 0 v); lia.
    + eexists. split; [reflexivity|].
      apply nearest_half_away_frac.
      set (h := 2 ^ (- e - 1)).
      assert (Hh : 0 < h) by (apply Z.pow_pos_nonneg; lia).
      assert (HD : 2 ^ (- e) = 2 * h).
      { unfold h. replace (- e) with (Z.succ (- e - 1)) at 1 by lia.
        apply Z.pow_succ_r. lia. }
      rewrite HD. rewrite Z2Pos.id by lia.
      pose proof (Z.div_mod (Z.pos m + h) (2 * h) ltac:(lia)) as Hd.
      pose proof (Z.mod_pos_bound (Z.pos m + h) (2 * h) ltac:(lia)) as Hm.
      set (k := (Z.pos m + h) / (2 * h)) in *.
      set (r := (Z.pos m + h) mod (2 * h)) in *.
      assert (Hk : 0 <= k) by (apply Z.div_pos; lia).
      destruct s.
      * replace (0 <=? Z.neg m) with false by reflexivity.
        replace (Z.neg m) with (- Z.pos m) by reflexivity. nia.
      * replace (0 <=? Z.pos m) with true by reflexivity. nia.
Qed.

(** Conversely, whenever the value has a nearest integer in the sense of
    [nearest_half_away], that integer is what [round] returns. *)
Lemma round_complete (x : float) (q : Q) (n : Z) :
  float_value x = Some q -> nearest_half_away q n -> round x = Some n.
Proof.
  intros Hq Hn.
  assert (Hr : exists r, round x = Some r)
    by (destruct x; simpl in *; try discriminate; eauto).
  destruct Hr as [r Hr]. rewrite Hr. f_equal.
  destruct (round_nearest _ _ Hr) as (q' & Hq' & Hn').
  rewrite Hq in Hq'. injection Hq' as <-.
  apply (nearest_half_away_unique q); assumption.
Qed.

Lemma to_unsigned_long_some (r : option Z) (n : Z) :
  to_unsigned_long r = Some n <-> r = Some n /\ 0 <= n < two32.
Proof.
  unfold to_unsigned_long. destruct r as [z|].
  - destruct (Z.leb_spec 0 z), (Z.ltb_spec z two32); simpl;
      split; try (intros [H1 H2]; injection H1 as ->; (reflexivity || lia));
      intros H'; try discriminate; injection H' as ->; split; auto; lia.
  - split; [discriminate|intros [H _]; discriminate].
Qed.

(** The absolute value and the sign change of [float], on the values. *)
Lemma fabs_fneg (x : float) : fabs (fneg x) = fabs x.
Proof. destruct x; reflexivity. Qed.

End Rounding.

(** ** Comparisons with zero *)

Section Comparisons.

Lemma positive_not_le_zero (x : float) :
  flt fzero x = true -> fle x fzero = false.
Proof.
  unfold flt, fle, feq, SFltb, SFleb, SFeqb, fzero.
  destruct x as [s|s| |s m e]; try destruct s; simpl; congruence.
Qed.




End Comparisons.

(** ** Time and driven time of a list of hardware calls *)

Section DrivenTime.

Lemma clock_run_instantaneous (evs : list event) :
  instantaneous evs -> forall s, clock (run_events evs s) = clock s.
Proof.
  induction evs as [|e evs IH]; intros Hi s; [reflexivity|].
  simpl. rewrite IH by (intros e' He'; apply Hi; right; exact He').
  unfold do_event. simpl. rewrite (Hi e) by (left; reflexivity). lia.
Qed.

Lemma driven_ms_instantaneous (evs : list event) :
  instantaneous evs -> forall o, driven_ms evs o = 0.
Proof.
  induction evs as [|e evs IH]; intros Hi o; [reflexivity|].
  simpl. rewrite IH by (intros e' He'; apply Hi; right; exact He').
  rewrite (Hi e) by (left; reflexivity).
  destruct ((duty_left o =? 0) && (duty_right o =? 0)); reflexivity.
Qed.

Lemma driven_ms_app (a b : list event) :
  forall o, driven_ms (a ++ b) o
            = driven_ms a o + driven_ms b (outputs_after a o).
Proof.
  induction a as [|e a IH]; intros o; simpl; [reflexivity|].
  rewrite IH. unfold outputs_after. simpl. lia.
Qed.

Lemma outputs_after_app (a b : list event) (o : outputs) :
  outputs_after (a ++ b) o = outputs_after b (outputs_after a o).
Proof. apply fold_left_app. Qed.

Lemma outputs_after_polls (n : nat) (o : outputs) :
  outputs_after (polls n) o = o.
Proof. induction n as [|n IH]; simpl; auto. Qed.

Lemma driven_ms_polls (n : nat) (o : outputs) :
  duty_left o <> 0 -> driven_ms (polls n) o = 5 * Z.of_nat n.
Proof.
  intros Hd. induction n as [|n IH]; [reflexivity|].
  change (polls (S n)) with (Delay 5 :: polls n).
  cbn [driven_ms apply_event duration]. rewrite IH.
  destruct (Z.eqb_spec (duty_left o) 0); [contradiction|].
  cbn [andb]. lia.
Qed.

Lemma instantaneous_drive_writes (pwm : Z) : instantaneous (drive_writes pwm).
Proof. intros e He. simpl in He. intuition (subst; reflexivity). Qed.

Lemma instantaneous_turn_right_writes (pwm : Z) :
  instantaneous (turn_right_writes pwm).
Proof. intros e He. simpl in He. intuition (subst; reflexivity). Qed.

Lemma instantaneous_turn_left_writes (pwm : Z) :
  instantaneous (turn_left_writes pwm).
Proof. intros e He. simpl in He. intuition (subst; reflexivity). Qed.

Lemma instantaneous_stop_writes : instantaneous stop_writes.
Proof. intros e He. simpl in He. intuition (subst; reflexivity). Qed.

(** A motion: instantaneous writes that leave the left duty at a nonzero
    value, [n] rounds of waiting, the stop.  The motors are driven during
    the [n] rounds, which is also the time the whole motion takes. *)
Lemma motion_time (writes : list event) (n : nat) (s : state) :
  instantaneous writes ->
  duty_left (outputs_after writes (out s)) <> 0 ->
  let s' := run_events (writes ++ polls n ++ stop_writes) s in
  driven_ms (new_events s s') (out s) = 5 * Z.of_nat n /\
  clock s' - clock s = 5 * Z.of_nat n.
Proof.
  intros Hw Hd s'. unfold s'. split.
  - rewrite new_events_run_events, !driven_ms_app.
    rewrite (driven_ms_instantaneous _ Hw).
    rewrite (driven_ms_polls _ _ Hd).
    rewrite (driven_ms_instantaneous _ instantaneous_stop_writes). lia.
  - rewrite !run_events_app.
    rewrite (clock_run_instantaneous _ instantaneous_stop_writes).
    rewrite clock_run_polls.
    rewrite (clock_run_instantaneous _ Hw). lia.
Qed.

End DrivenTime.

(** ** The two motion commands *)

Section Motion.

Variable cal : calibration.

(** The timed wait followed by the stop, as both commands end. *)
Lemma wait_then_stop_returned (fuel : nat) (r : Z) (s1 s' : state) :
  bind (wait_loop fuel (millis s1) r s1) (fun s => Returned (stopMotors s))
    = Returned s' ->
  exists n, first_exit r n /\ s' = run_events (polls n ++ stop_writes) s1.
Proof.
  destruct (wait_loop fuel (millis s1) r s1) as [s2| |] eqn:Hw;
    simpl; try discriminate.
  intros H. injection H as <-.
  destruct (wait_loop_first_exit _ _ _ _ Hw) as (n & -> & Hn).
  exists n. split; [exact Hn|].
  rewrite run_events_app. apply stopMotors_run_events.
Qed.

Lemma wait_then_stop_returns (r : Z) (s1 : state) :
  0 <= r < two32 ->
  exists fuel s',
    bind (wait_loop fuel (millis s1) r s1) (fun s => Returned (stopMotors s))
      = Returned s'.
Proof.
  intros Hr. destruct (wait_loop_terminates r s1 Hr) as (fuel & s2 & Hw).
  exists fuel, (stopMotors s2). rewrite Hw. reflexivity.
Qed.

(** *** driveForward *)

Lemma driveForward_noop (fuel : nat) (d : float) (p : Z) (s : state) :
  fle d fzero = true \/ p <= 0 -> driveForward cal fuel d p s = Returned s.
Proof.
  intros H. unfold driveForward.
  replace (fle d fzero || (p <=? 0)) with true; [reflexivity|].
  symmetry. apply orb_true_iff.
  destruct H as [H|H]; [left; exact H|right; apply Z.leb_le; exact H].
Qed.

Lemma driveForward_unfold (fuel : nat) (d : float) (p r : Z) (s : state) :
  fle d fzero = false -> 0 < p -> driveForward_runTimeMs cal d = Some r ->
  driveForward cal fuel d p s =
    let s1 := run_events (drive_writes (speedPercentToPwm p)) s in
    bind (wait_loop fuel (millis s1) r s1) (fun s => Returned (stopMotors s)).
Proof.
  intros Hd Hp Hr. unfold driveForward. rewrite Hd, Hr.
  replace (p <=? 0) with false by (symmetry; apply Z.leb_gt; lia).
  reflexivity.
Qed.

Lemma driveForward_returned (fuel : nat) (d : float) (p : Z) (s s' : state) :
  fle d fzero = false -> 0 < p ->
  driveForward cal fuel d p s = Returned s' ->
  exists r n, driveForward_runTimeMs cal d = Some r /\ first_exit r n /\
    s' = run_events (drive_writes (speedPercentToPwm p) ++ polls n ++ stop_writes) s.
Proof.
  intros Hd Hp H.
  destruct (driveForward_runTimeMs cal d) as [r|] eqn:Hr.
  - rewrite (driveForward_unfold fuel d p r s Hd Hp Hr) in H. cbv zeta in H.
    destruct (wait_then_stop_returned _ _ _ _ H) as (n & Hn & ->).
    exists r, n. split; [reflexivity|]. split; [exact Hn|].
    symmetry. apply run_events_app.
  - unfold driveForward in H. rewrite Hd, Hr in H.
    replace (p <=? 0) with false in H by (symmetry; apply Z.leb_gt; lia).
    discriminate.
Qed.

Lemma driveForward_returns (d : float) (p r : Z) (s : state) :
  driveForward_runTimeMs cal d = Some r ->
  exists fuel s', driveForward cal fuel d p s = Returned s'.
Proof.
  intros Hr.
  destruct (fle d fzero || (p <=? 0)) eqn:Hg.
  - exists O, s. unfold driveForward. rewrite Hg. reflexivity.
  - apply orb_false_iff in Hg. destruct Hg as [Hd Hp].
    apply Z.leb_gt in Hp.
    apply to_unsigned_long_some in Hr as Hr'. destruct Hr' as [_ Hrange].
    destruct (wait_then_stop_returns r
                (run_events (drive_writes (speedPercentToPwm p)) s) Hrange)
      as (fuel & s' & H).
    exists fuel, s'. rewrite (driveForward_unfold fuel d p r s Hd Hp Hr).
    exact H.
Qed.

(** *** rotate *)

Lemma rotate_noop (fuel : nat) (a : float) (p : Z) (s : state) :
  feq a fzero = true \/ p <= 0 -> rotate cal fuel a p s = Returned s.
Proof.
  intros H. unfold rotate.
  replace (feq a fzero || (p <=? 0)) with true; [reflexivity|].
  symmetry. apply orb_true_iff.
  destruct H as [H|H]; [left; exact H|right; apply Z.leb_le; exact H].
Qed.

Lemma rotate_unfold (fuel : nat) (a : float) (p r : Z) (s : state) :
  feq a fzero = false -> 0 < p -> rotate_runTimeMs cal a = Some r ->
  rotate cal fuel a p s =
    let s1 := run_events (turn_writes a (speedPercentToPwm p)) s in
    bind (wait_loop fuel (millis s1) r s1) (fun s => Returned (stopMotors s)).
Proof.
  intros Ha Hp Hr. unfold rotate, turn_writes. rewrite Ha, Hr.
  replace (p <=? 0) with false by (symmetry; apply Z.leb_gt; lia).
  destruct (flt fzero a); reflexivity.
Qed.

Lemma rotate_returned (fuel : nat) (a : float) (p : Z) (s s' : state) :
  feq a fzero = false -> 0 < p ->
  rotate cal fuel a p s = Returned s' ->
  exists r n, rotate_runTimeMs cal a = Some r /\ first_exit r n /\
    s' = run_events (turn_writes a (speedPercentToPwm p) ++ polls n ++ stop_writes) s.
Proof.
  intros Ha Hp H.
  destruct (rotate_runTimeMs cal a) as [r|] eqn:Hr.
  - rewrite (rotate_unfold fuel a p r s Ha Hp Hr) in H. cbv zeta in H.
    destruct (wait_then_stop_returned _ _ _ _ H) as (n & Hn & ->).
    exists r, n. split; [reflexivity|]. split; [exact Hn|].
    symmetry. apply run_events_app.
  - unfold rotate in H. rewrite Ha, Hr in H.
    replace (p <=? 0) with false in H by (symmetry; apply Z.leb_gt; lia).
    discriminate.
Qed.

Lemma rotate_returns (a : float) (p r : Z) (s : state) :
  rotate_runTimeMs cal a = Some r ->
  exists fuel s', rotate cal fuel a p s = Returned s'.
Proof.
  intros Hr.
  destruct (feq a fzero || (p <=? 0)) eqn:Hg.
  - exists O, s. unfold rotate. rewrite Hg. reflexivity.
  - apply orb_false_iff in Hg. destruct Hg as [Ha Hp].
    apply Z.leb_gt in Hp.
    apply to_unsigned_long_some in Hr as Hr'. destruct Hr' as [_ Hrange].
    destruct (wait_then_stop_returns r
                (run_events (turn_writes a (speedPercentToPwm p)) s) Hrange)
      as (fuel & s' & H).
    exists fuel, s'. rewrite (rotate_unfold fuel a p r s Ha Hp Hr).
    exact H.
Qed.

(** *** The motors are stopped between commands *)

Lemma call_stops (fuel : nat) (c : command) (s s' : state) :
  motors_stopped (out s) ->
  call cal fuel c s = Returned s' -> motors_stopped (out s').
Proof.
  intros Hs. destruct c as [d p|a p|]; simpl.
  - unfold driveForward. destruct (fle d fzero || (p <=? 0)).
    + intros H. injection H as <-. exact Hs.
    + destruct (driveForward_runTimeMs cal d); [|discriminate].
      cbv zeta. match goal with |- bind ?w _ = _ -> _ => destruct w end;
        simpl; try discriminate.
      intros H. injection H as <-. apply stopMotors_stops.
  - unfold rotate. destruct (feq a fzero || (p <=? 0)).
    + intros H. injection H as <-. exact Hs.
    + destruct (rotate_runTimeMs cal a); [|discriminate].
      cbv zeta. match goal with |- bind ?w _ = _ -> _ => destruct w end;
        simpl; try discriminate.
      intros H. injection H as <-. apply stopMotors_stops.
  - intros H. injection H as <-. apply stopMotors_stops.
Qed.

Lemma effective_call_stops (fuel : nat) (c : command) (s s' : state) :
  is_noop c = false ->
  call cal fuel c s = Returned s' -> motors_stopped (out s').
Proof.
  destruct c as [d p|a p|]; simpl; intros Hn.
  - unfold driveForward. rewrite Hn.
    destruct (driveForward_runTimeMs cal d); [|discriminate].
    cbv zeta. match goal with |- bind ?w _ = _ -> _ => destruct w end;
      simpl; try discriminate.
    intros H. injection H as <-. apply stopMotors_stops.
  - unfold rotate. rewrite Hn.
    destruct (rotate_runTimeMs cal a); [|discriminate].
    cbv zeta. match goal with |- bind ?w _ = _ -> _ => destruct w end;
      simpl; try discriminate.
    intros H. injection H as <-. apply stopMotors_stops.
  - intros H. injection H as <-. apply stopMotors_stops.
Qed.

Lemma noop_call_returns_same (fuel : nat) (c : command) (s : state) :
  is_noop c = true -> call cal fuel c s = Returned s.
Proof.
  destruct c as [d p|a p|]; simpl; intros Hn; try discriminate.
  - unfold driveForward. rewrite Hn. reflexivity.
  - unfold rotate. rewrite Hn. reflexivity.
Qed.

Lemma reachable_stopped (s : state) :
  reachable cal s -> motors_stopped (out s).
Proof.
  induction 1 as [s0|s fuel c s' _ IH Hc|s ms _ IH].
  - apply stopMotors_stops.
  - apply (call_stops fuel c s s' IH Hc).
  - exact IH.
Qed.

Lemma call_returns (c : command) (s : state) :
  well_defined cal c = true ->
  exists fuel s', call cal fuel c s = Returned s'.
Proof.
  unfold well_defined. destruct c as [d p|a p|]; simpl; intros Hw.
  - destruct (driveForward_runTimeMs cal d) as [r|] eqn:Hr.
    + apply (driveForward_returns d p r s Hr).
    + rewrite orb_false_r in Hw. exists O, s.
      unfold driveForward. rewrite Hw. reflexivity.
  - destruct (rotate_runTimeMs cal a) as [r|] eqn:Hr.
    + apply (rotate_returns a p r s Hr).
    + rewrite orb_false_r in Hw. exists O, s.
      unfold rotate. rewrite Hw. reflexivity.
  - exists O. eauto.
Qed.

(** *** The bound on the polling rounds does not change what a call does *)

Lemma call_deterministic (c : command) (s : state) (fuel1 fuel2 : nat)
    (s1 s2 : state) :
  call cal fuel1 c s = Returned s1 -> call cal fuel2 c s = Returned s2 ->
  s1 = s2.
Proof.
  destruct c as [d p|a p|]; simpl.
  - destruct (fle d fzero || (p <=? 0)) eqn:Hg.
    + unfold driveForward. rewrite Hg. congruence.
    + apply orb_false_iff in Hg. destruct Hg as [Hd Hp].
      apply Z.leb_gt in Hp. intros H1 H2.
      destruct (driveForward_returned fuel1 d p s s1 Hd Hp H1)
        as (r1 & n1 & Hr1 & Hn1 & ->).
      destruct (driveForward_returned fuel2 d p s s2 Hd Hp H2)
        as (r2 & n2 & Hr2 & Hn2 & ->).
      rewrite Hr1 in Hr2. injection Hr2 as <-.
      rewrite (first_exit_unique r1 n1 n2 Hn1 Hn2). reflexivity.
  - destruct (feq a fzero || (p <=? 0)) eqn:Hg.
    + unfold rotate. rewrite Hg. congruence.
    + apply orb_false_iff in Hg. destruct Hg as [Ha Hp].
      apply Z.leb_gt in Hp. intros H1 H2.
      destruct (rotate_returned fuel1 a p s s1 Ha Hp H1)
        as (r1 & n1 & Hr1 & Hn1 & ->).
      destruct (rotate_returned fuel2 a p s s2 Ha Hp H2)
        as (r2 & n2 & Hr2 & Hn2 & ->).
      rewrite Hr1 in Hr2. injection Hr2 as <-.
      rewrite (first_exit_unique r1 n1 n2 Hn1 Hn2). reflexivity.
  - congruence.
Qed.

End Motion.

(** ** Run time of a motion *)

Section RunTime.

Variable cal : calibration.

Lemma duty_after_drive_writes (pwm : Z) (o : outputs) :
  duty_left (outputs_after (drive_writes pwm) o) = pwm.
Proof. reflexivity. Qed.

Lemma duty_after_turn_writes (a : float) (pwm : Z) (o : outputs) :
  duty_left (outputs_after (turn_writes a pwm) o) = pwm.
Proof. unfold turn_writes. destruct (flt fzero a); reflexivity. Qed.

Lemma instantaneous_turn_writes (a : float) (pwm : Z) :
  instantaneous (turn_writes a pwm).
Proof.
  unfold turn_writes. destruct (flt fzero a);
    [apply instantaneous_turn_right_writes|apply instantaneous_turn_left_writes].
Qed.

(** The hardware calls of a forward drive that returns, and the time
    they take. *)
Lemma driveForward_motion (fuel : nat) (d : float) (p r : Z) (s s' : state) :
  flt fzero d = true -> 0 < p ->
  driveForward_runTimeMs cal d = Some r ->
  driveForward cal fuel d p s = Returned s' ->
  exists n, first_exit r n /\
    new_events s s' = drive_writes (speedPercentToPwm p) ++ polls n ++ stop_writes /\
    driven_ms (new_events s s') (out s) = 5 * Z.of_nat n /\
    clock s' - clock s = 5 * Z.of_nat n.
Proof.
  intros Hd Hp Hr H.
  destruct (driveForward_returned cal fuel d p s s'
              (positive_not_le_zero d Hd) Hp H) as (r' & n & Hr' & Hn & ->).
  rewrite Hr in Hr'. injection Hr' as <-.
  exists n. split; [exact Hn|]. split; [apply new_events_run_events|].
  apply motion_time; [apply instantaneous_drive_writes|].
  rewrite duty_after_drive_writes.
  pose proof (speedPercentToPwm_positive p Hp). lia.
Qed.

Lemma rotate_motion (fuel : nat) (a : float) (p r : Z) (s s' : state) :
  feq a fzero = false -> 0 < p ->
  rotate_runTimeMs cal a = Some r ->
  rotate cal fuel a p s = Returned s' ->
  exists n, first_exit r n /\
    new_events s s' = turn_writes a (speedPercentToPwm p) ++ polls n ++ stop_writes /\
    driven_ms (new_events s s') (out s) = 5 * Z.of_nat n /\
    clock s' - clock s = 5 * Z.of_nat n.
Proof.
  intros Ha Hp Hr H.
  destruct (rotate_returned cal fuel a p s s' Ha Hp H)
    as (r' & n & Hr' & Hn & ->).
  rewrite Hr in Hr'. injection Hr' as <-.
  exists n. split; [exact Hn|]. split; [apply new_events_run_events|].
  apply motion_time; [apply instantaneous_turn_writes|].
  rewrite duty_after_turn_writes.
  pose proof (speedPercentToPwm_positive p Hp). lia.
Qed.

Lemma ceil5_bounds (r : Z) : r <= 5 * ((r + 4) / 5) < r + 5.
Proof.
  pose proof (Z.div_mod (r + 4) 5 ltac:(lia)).
  pose proof (Z.mod_pos_bound (r + 4) 5 ltac:(lia)). lia.
Qed.

Lemma runTimeMs_nearest (x : float) (r : Z) :
  to_unsigned_long (round x) = Some r ->
  exists q, float_value x = Some q /\ nearest_half_away q r.
Proof.
  intros H. apply to_unsigned_long_some in H. destruct H as [H _].
  apply round_nearest, H.
Qed.

Lemma runTimeMs_complete (x : float) (q : Q) (n : Z) :
  float_value x = Some q -> nearest_half_away q n -> 0 <= n < two32 ->
  to_unsigned_long (round x) = Some n.
Proof.
  intros Hq Hn Hr. apply to_unsigned_long_some. split; [|exact Hr].
  apply (round_complete x q n Hq Hn).
Qed.

(** The run time computed by [(unsigned long) round(x)]: defined exactly
    when the nearest integer of [x] fits an [unsigned long], and then it is
    that integer. *)
Lemma runTimeMs_iff (x : float) (n : Z) :
  to_unsigned_long (round x) = Some n <->
  (exists q, float_value x = Some q /\ nearest_half_away q n) /\
  0 <= n < two32.
Proof.
  split.
  - intros H. split; [apply runTimeMs_nearest, H|].
    apply to_unsigned_long_some in H. apply H.
  - intros [(q & Hq & Hn) Hr]. apply (runTimeMs_complete x q n Hq Hn Hr).
Qed.

End RunTime.

(** ** Properties of the motion controller *)

Section MotionClaims.

(** C2: in every state the sketch can be in (after [setup], between
    commands), a call of [driveForward], [rotate] or [stopMotors], whatever
    its arguments, returns in a state where both duties are 0 and both
    motors coast, all four direction lines being low.  A call that does not
    take the early return ends with [stopMotors] and reaches that state from
    any state of the hardware; a call that takes the early return leaves the
    hardware as it was, which [setup] and the commands before it had
    stopped.  The call does return whenever its run time is computed without
    undefined behaviour. *)
Theorem motors_stopped_after_every_call (cal : calibration) (c : command) :
  (forall s fuel s',
     reachable cal s -> call cal fuel c s = Returned s' ->
     motors_stopped (out s') /\
     left_direction (out s') = Coast /\ right_direction (out s') = Coast) /\
  (forall s fuel s',
     is_noop c = false -> call cal fuel c s = Returned s' ->
     motors_stopped (out s') /\
     left_direction (out s') = Coast /\ right_direction (out s') = Coast) /\
  (forall s,
     well_defined cal c = true ->
     exists fuel s', call cal fuel c s = Returned s').
Proof.
  split; [|split].
  - intros s fuel s' Hs Hc.
    assert (Hstop : motors_stopped (out s'))
      by (apply (call_stops cal fuel c s s' (reachable_stopped cal s Hs) Hc)).
    split; [exact Hstop|]. apply motors_stopped_coast, Hstop.
  - intros s fuel s' Hn Hc.
    assert (Hstop : motors_stopped (out s'))
      by (apply (effective_call_stops cal fuel c s s' Hn Hc)).
    split; [exact Hstop|]. apply motors_stopped_coast, Hstop.
  - intros s. apply call_returns.
Qed.

Lemma motors_stopped_after_every_call_witness :
  exists s',
    call default_calibration 152 (Rotate (float_of_Z 90) 60) (setup power_on)
      = Returned s' /\
    motors_stopped (out s').
Proof.
  eexists. split.
  - vm_compute. reflexivity.
  - apply (proj1 (motors_stopped_after_every_call default_calibration
                    (Rotate (float_of_Z 90) 60))
                 (setup power_on) 152%nat _
                 (reach_setup default_calibration power_on)).
    vm_compute. reflexivity.
Defined.

(** C3, as stated, fails: for a tenth of a centimetre at [ms_per_cm = 80]
    the computed run time is [round(0.1f * 80.0f) = 8] ms, but the loop
    polls the clock every 5 ms, and the motors are driven for 10 ms. *)
Lemma driveForward_tenth_cm_driven_10_ms :
  let d := float_of_decimal 1 10 in
  let s := setup power_on in
  flt fzero d = true /\
  driveForward_runTimeMs default_calibration d = Some 8 /\
  (exists s', driveForward default_calibration 2 d 60 s = Returned s') /\
  (forall fuel s',
     driveForward default_calibration fuel d 60 s = Returned s' ->
     driven_ms (new_events s s') (out s) = 10 /\ clock s' - clock s = 10).
Proof.
  cbv zeta. split; [reflexivity|]. split; [reflexivity|]. split.
  - eexists. vm_compute. reflexivity.
  - intros fuel s' H.
    destruct (driveForward_motion default_calibration fuel
                (float_of_decimal 1 10) 60 8 (setup power_on) s'
                eq_refl ltac:(lia) eq_refl H) as (n & Hn & _ & Hdriven & Hclock).
    assert (Hceil : Z.of_nat n = (8 + 4) / 5)
      by (apply first_exit_ceil; [unfold two32; lia|exact Hn]).
    change ((8 + 4) / 5) with 2 in Hceil. lia.
Qed.

(** C3, amended: for every [distanceCm > 0] and [speedPercent > 0] for
    which the run time is computed without undefined behaviour,
    [driveForward] computes [runTimeMs] as the integer nearest to the
    [float] product [distanceCm * msPerCm] (ties away from zero), returns,
    and has driven the motors until the first poll of the clock, one every
    5 ms, at which [runTimeMs] had elapsed, that is (for a run time of at
    most [2 ^ 32 - 5] ms) for [runTimeMs] rounded up to a multiple of
    5 ms; with [distanceCm = 30] and [msPerCm = 80] the computed run time
    is 2400 ms, and the motors are driven for 2400 ms. *)
Theorem driveForward_run_time :
  (forall (cal : calibration) (distance_cm : float) (speed_percent : Z)
          (s : state) (runTimeMs : Z),
     flt fzero distance_cm = true -> 0 < speed_percent ->
     driveForward_runTimeMs cal distance_cm = Some runTimeMs ->
     (exists q, float_value (fmul distance_cm (ms_per_cm cal)) = Some q /\
                nearest_half_away q runTimeMs) /\
     (exists fuel s',
        driveForward cal fuel distance_cm speed_percent s = Returned s') /\
     (forall fuel s',
        driveForward cal fuel distance_cm speed_percent s = Returned s' ->
        exists n, first_exit runTimeMs n /\
          driven_ms (new_events s s') (out s) = 5 * Z.of_nat n /\
          (runTimeMs <= two32 - 5 ->
           driven_ms (new_events s s') (out s) = 5 * ((runTimeMs + 4) / 5) /\
           runTimeMs <= driven_ms (new_events s s') (out s) < runTimeMs + 5))) /\
  (forall (cal : calibration) (distance_cm : float) (n : Z),
     driveForward_runTimeMs cal distance_cm = Some n <->
     (exists q, float_value (fmul distance_cm (ms_per_cm cal)) = Some q /\
                nearest_half_away q n) /\
     0 <= n < two32) /\
  driveForward_runTimeMs default_calibration (float_of_Z 30) = Some 2400 /\
  (forall fuel s s',
     driveForward default_calibration fuel (float_of_Z 30) 60 s = Returned s' ->
     driven_ms (new_events s s') (out s) = 2400).
Proof.
  split; [|split; [|split]].
  - intros cal d p s r Hd Hp Hr. split; [|split].
    + apply runTimeMs_nearest, Hr.
    + apply (driveForward_returns cal d p r s Hr).
    + intros fuel s' H.
      destruct (driveForward_motion cal fuel d p r s s' Hd Hp Hr H)
        as (n & Hn & _ & Hdriven & _).
      exists n. split; [exact Hn|]. split; [exact Hdriven|].
      intros Hsmall. rewrite Hdriven.
      apply to_unsigned_long_some in Hr. destruct Hr as [_ Hrange].
      rewrite (first_exit_ceil r n ltac:(lia) Hn).
      split; [reflexivity|apply ceil5_bounds].
  - intros cal d n. apply runTimeMs_iff.
  - reflexivity.
  - intros fuel s s' H.
    destruct (driveForward_motion default_calibration fuel (float_of_Z 30)
                60 2400 s s' eq_refl ltac:(lia) eq_refl H)
      as (n & Hn & _ & Hdriven & _).
    rewrite Hdriven.
    rewrite (first_exit_ceil 2400 n ltac:(unfold two32; lia) Hn).
    reflexivity.
Qed.

Lemma driveForward_run_time_witness :
  exists q, float_value (fmul (float_of_Z 30) (ms_per_cm default_calibration))
            = Some q /\ nearest_half_away q 2400.
Proof.
  apply (proj1 (proj1 driveForward_run_time default_calibration
                  (float_of_Z 30) 60 power_on 2400
                  eq_refl ltac:(lia) eq_refl)).
Defined.

Lemma fneg_not_zero (a : float) :
  feq a fzero = false -> feq (fneg a) fzero = false.
Proof.
  unfold feq, fneg, SFeqb, fzero.
  destruct a as [s|s| |s m e]; try destruct s; simpl; congruence.
Qed.

Lemma rotate_runTimeMs_fneg (cal : calibration) (a : float) :
  rotate_runTimeMs cal (fneg a) = rotate_runTimeMs cal a.
Proof. unfold rotate_runTimeMs. rewrite fabs_fneg. reflexivity. Qed.

(** C4, as stated, fails: for an angle of a billion degrees at
    [ms_per_degree = 8.4] the rounded product [round(|a| * 8.4f)] is
    8399999488, which no 32-bit [unsigned long] holds: the cast is
    undefined and [rotate] has no run duration.  And where the run time is
    computed, the motors are driven until the first poll of the clock that
    sees it elapsed: [rotate(90, 60)] computes 756 ms and drives the motors
    for 760 ms. *)
Lemma rotate_billion_degrees_undefined :
  let a := float_of_Z 1000000000 in
  feq a fzero = false /\
  round (fmul (fabs a) (ms_per_degree default_calibration)) = Some 8399999488 /\
  rotate_runTimeMs default_calibration a = None /\
  (forall fuel s, rotate default_calibration fuel a 60 s = Undefined) /\
  rotate_runTimeMs default_calibration (float_of_Z 90) = Some 756 /\
  (forall fuel s s',
     rotate default_calibration fuel (float_of_Z 90) 60 s = Returned s' ->
     driven_ms (new_events s s') (out s) = 760 /\ clock s' - clock s = 760).
Proof.
  cbv zeta. split; [reflexivity|]. split; [reflexivity|].
  split; [reflexivity|]. split; [intros fuel s; reflexivity|].
  split; [reflexivity|].
  intros fuel s s' H.
  destruct (rotate_motion default_calibration fuel (float_of_Z 90) 60 756 s s'
              eq_refl ltac:(lia) eq_refl H) as (n & Hn & _ & Hdriven & Hclock).
  assert (Hrounds : Z.of_nat n = (756 + 4) / 5)
    by (apply first_exit_rounds; [unfold two32; lia|exact Hn]).
  change ((756 + 4) / 5) with 152 in Hrounds. lia.
Qed.

(** C4, amended: for every nonzero [angleDeg] and [speedPercent > 0] whose
    run time is computed without undefined behaviour (the rounded product
    fits the 32-bit [unsigned long]), [rotate] computes [runTimeMs] as the
    integer nearest to the [float] product [|angleDeg| * msPerDegree] (ties
    away from zero); [rotate(a, s)] and [rotate(-a, s)] compute the same
    run time, both return, and both have made the writes of their turn,
    waited until the first poll of the clock, one every 5 ms, at which
    [runTimeMs] had elapsed, and stopped: each drives the motors for
    [runTimeMs] rounded up to a multiple of 5 ms.  The run time is computed
    exactly when the nearest integer of the product lies in
    [0, 2 ^ 32); the sign of the angle never changes it; [rotate(90, 60)]
    and [rotate(-90, 60)] with [msPerDegree = 8.4] both compute 756 ms. *)
Theorem rotate_duration_sign_independent :
  (forall (cal : calibration) (angle_deg : float) (speed_percent : Z)
          (s : state) (runTimeMs : Z),
     feq angle_deg fzero = false -> 0 < speed_percent ->
     rotate_runTimeMs cal angle_deg = Some runTimeMs ->
     (exists q,
        float_value (fmul (fabs angle_deg) (ms_per_degree cal)) = Some q /\
        nearest_half_away q runTimeMs) /\
     rotate_runTimeMs cal (fneg angle_deg) = Some runTimeMs /\
     (forall a, a = angle_deg \/ a = fneg angle_deg ->
        (exists fuel s', rotate cal fuel a speed_percent s = Returned s') /\
        (forall fuel s',
           rotate cal fuel a speed_percent s = Returned s' ->
           exists n,
             first_exit runTimeMs n /\
             new_events s s' =
               turn_writes a (speedPercentToPwm speed_percent)
               ++ polls n ++ stop_writes /\
             driven_ms (new_events s s') (out s)
             = 5 * ((runTimeMs + 4) / 5) /\
             clock s' - clock s = 5 * ((runTimeMs + 4) / 5) /\
             runTimeMs <= clock s' - clock s < runTimeMs + 5))) /\
  (forall (cal : calibration) (angle_deg : float) (n : Z),
     rotate_runTimeMs cal angle_deg = Some n <->
     (exists q,
        float_value (fmul (fabs angle_deg) (ms_per_degree cal)) = Some q /\
        nearest_half_away q n) /\
     0 <= n < two32) /\
  (forall (cal : calibration) (angle_deg : float),
     rotate_runTimeMs cal (fneg angle_deg) = rotate_runTimeMs cal angle_deg) /\
  rotate_runTimeMs default_calibration (float_of_Z 90) = Some 756 /\
  rotate_runTimeMs default_calibration (float_of_Z (-90)) = Some 756.
Proof.
  split; [|split; [|split; [|split; reflexivity]]].
  - intros cal a0 p s r Ha Hp Hr.
    assert (Hneg : rotate_runTimeMs cal (fneg a0) = Some r)
      by (rewrite rotate_runTimeMs_fneg; exact Hr).
    split; [apply runTimeMs_nearest, Hr|]. split; [exact Hneg|].
    intros a Hcase.
    assert (Hnz : feq a fzero = false)
      by (destruct Hcase as [->| ->]; [exact Ha|apply fneg_not_zero, Ha]).
    assert (Hra : rotate_runTimeMs cal a = Some r)
      by (destruct Hcase as [->| ->]; assumption).
    split; [apply (rotate_returns cal a p r s Hra)|].
    intros fuel s' H.
    destruct (rotate_motion cal fuel a p r s s' Hnz Hp Hra H)
      as (n & Hn & Hev & Hdriven & Hclock).
    exists n. split; [exact Hn|]. split; [exact Hev|].
    apply to_unsigned_long_some in Hr. destruct Hr as [_ Hrange].
    rewrite Hdriven, Hclock, (first_exit_rounds r n Hrange Hn).
    split; [reflexivity|]. split; [reflexivity|]. apply ceil5_bounds.
  - intros cal a n. apply runTimeMs_iff.
  - intros cal a. apply rotate_runTimeMs_fneg.
Qed.

Lemma rotate_duration_sign_independent_witness :
  exists s',
    rotate default_calibration 152 (fneg (float_of_Z 90)) 60 (setup power_on)
      = Returned s' /\
    exists n,
      first_exit 756 n /\
      new_events (setup power_on) s' =
        turn_writes (fneg (float_of_Z 90)) (speedPercentToPwm 60)
        ++ polls n ++ stop_writes /\
      driven_ms (new_events (setup power_on) s') (out (setup power_on))
      = 5 * ((756 + 4) / 5) /\
      clock s' - clock (setup power_on) = 5 * ((756 + 4) / 5) /\
      756 <= clock s' - clock (setup power_on) < 756 + 5.
Proof.
  eexists. split.
  - vm_compute. reflexivity.
  - apply (proj2 (proj2 (proj2 (proj1 rotate_duration_sign_independent
             default_calibration (float_of_Z 90) 60 (setup power_on) 756
             eq_refl ltac:(lia) eq_refl))
             (fneg (float_of_Z 90)) (or_intror eq_refl)) 152%nat).
    vm_compute. reflexivity.
Defined.



(** C6: [driveForward] called with [distanceCm <= 0] or
    [speedPercent <= 0], and [rotate] called with [angleDeg == 0] or
    [speedPercent <= 0], return at once in the state they were called in:
    no hardware call is made (the trace, the direction lines and the
    duties are unchanged), no time passes, and the outcome is a normal
    return. *)
Theorem noop_commands_leave_hardware_untouched
    (cal : calibration) (fuel : nat) (s : state) :
  (forall distance_cm speed_percent,
     fle distance_cm fzero = true \/ speed_percent <= 0 ->
     driveForward cal fuel distance_cm speed_percent s = Returned s) /\
  (forall angle_deg speed_percent,
     feq angle_deg fzero = true \/ speed_percent <= 0 ->
     rotate cal fuel angle_deg speed_percent s = Returned s).
Proof.
  split.
  - intros d p H. apply driveForward_noop, H.
  - intros a p H. apply rotate_noop, H.
Qed.

Lemma noop_commands_leave_hardware_untouched_witness :
  let s := setup power_on in
  driveForward default_calibration 0 (float_of_Z 0) 50 s = Returned s /\
  driveForward default_calibration 0 (float_of_Z (-5)) 50 s = Returned s /\
  rotate default_calibration 0 (float_of_Z 0) 60 s = Returned s /\
  rotate default_calibration 0 (float_of_Z 45) 0 s = Returned s.
Proof.
  cbv zeta.
  pose proof (noop_commands_leave_hardware_untouched default_calibration 0
                (setup power_on)) as [Hd Hr].
  split; [apply Hd; left; reflexivity|].
  split; [apply Hd; left; reflexivity|].
  split; [apply Hr; left; reflexivity|].
  apply Hr; right; lia.
Defined.

(** C10: for every [distanceCm > 0] and [speedPercent > 100],
    [driveForward(distanceCm, speedPercent)] has the outcome of
    [driveForward(distanceCm, 100)]: same final state, same hardware
    calls, same time.  The call is not cut short: when it returns it has
    made the writes of a forward drive with the duty 255 on both channels,
    the waiting rounds and the stop. *)
Theorem driveForward_over_range_speed
    (cal : calibration) (fuel : nat) (distance_cm : float)
    (speed_percent : Z) (s : state) :
  flt fzero distance_cm = true -> 100 < speed_percent ->
  driveForward cal fuel distance_cm speed_percent s
    = driveForward cal fuel distance_cm 100 s /\
  speedPercentToPwm speed_percent = 255 /\
  (forall s', driveForward cal fuel distance_cm speed_percent s = Returned s' ->
     exists n, new_events s s' = drive_writes 255 ++ polls n ++ stop_writes).
Proof.
  intros Hd Hp.
  assert (Hpwm : speedPercentToPwm speed_percent = 255)
    by (apply speedPercentToPwm_over_range, Hp).
  split; [|split; [exact Hpwm|]].
  - unfold driveForward. rewrite Hpwm.
    replace (speed_percent <=? 0) with false by (symmetry; apply Z.leb_gt; lia).
    reflexivity.
  - intros s' H.
    destruct (driveForward_returned cal fuel distance_cm speed_percent s s'
                (positive_not_le_zero _ Hd) ltac:(lia) H)
      as (r & n & _ & _ & ->).
    exists n. rewrite new_events_run_events, Hpwm. reflexivity.
Qed.

Lemma driveForward_over_range_speed_witness :
  driveForward default_calibration 480 (float_of_Z 30) 250 (setup power_on)
  = driveForward default_calibration 480 (float_of_Z 30) 100 (setup power_on).
Proof.
  apply (proj1 (driveForward_over_range_speed default_calibration 480
                  (float_of_Z 30) 250 (setup power_on) eq_refl ltac:(lia))).
Defined.

Lemma loop_reachable (cal : calibration) (fuel : nat) (s s' : state) :
  reachable cal s -> Robotek.loop cal fuel s = Returned s' -> reachable cal s'.
Proof.
  intros Hs. unfold Robotek.loop.
  destruct (rotate cal fuel (float_of_Z 90) 60 s) as [s1| |] eqn:H1;
    cbn [bind]; try discriminate.
  destruct (rotate cal fuel (float_of_Z (-90)) 60 (delay 1000 s1))
    as [s2| |] eqn:H2; cbn [bind]; try discriminate.
  intros H. injection H as <-.
  apply reach_delay.
  apply (reach_call cal (delay 1000 s1) fuel (Rotate (float_of_Z (-90)) 60));
    [|exact H2].
  apply reach_delay.
  apply (reach_call cal s fuel (Rotate (float_of_Z 90) 60)); [exact Hs|exact H1].
Qed.

(** The demonstration of [loop()] on the default calibration: two quarter
    turns of 756 ms each, driven for 760 ms each, the motors stopped at the
    end, 3520 ms after [setup]. *)
Lemma loop_demonstration :
  exists s',
    Robotek.loop default_calibration 152 (setup power_on) = Returned s' /\
    reachable default_calibration s' /\
    motors_stopped (out s') /\
    clock s' = 3520 /\
    driven_ms (new_events (setup power_on) s') (out (setup power_on)) = 1520.
Proof.
  assert (H : exists s',
             Robotek.loop default_calibration 152 (setup power_on) = Returned s' /\
             (motors_stopped (out s') /\ clock s' = 3520 /\
              driven_ms (new_events (setup power_on) s') (out (setup power_on))
              = 1520)).
  { eexists. split; [vm_compute; reflexivity|].
    vm_compute. repeat split; reflexivity. }
  destruct H as (s' & H & Hfacts). exists s'. split; [exact H|].
  split; [|exact Hfacts].
  apply (loop_reachable default_calibration 152 (setup power_on) s');
    [apply reach_setup|exact H].
Qed.

End MotionClaims.

(** ** Properties of the ranging utility *)

Section Ranging.

Import Sonar.

(** Every echo length that fits the time-out passes [echo_check]. *)
Lemma echo_checked :
  check_from (Z.to_nat ECHO_TIMEOUT_US) 1 echo_check = true.
Proof. vm_compute. reflexivity. Qed.

Lemma echo_check_ok (us : Z) :
  0 < us <= ECHO_TIMEOUT_US -> echo_check us = true.
Proof.
  intros H. apply (check_from_spec _ _ 1 echo_checked).
  rewrite Z2Nat.id by (unfold ECHO_TIMEOUT_US; lia). lia.
Qed.

Lemma measured_value_independent_of_trace (e : echo) (t : list event) :
  fst (measureDistanceCm e t) = fst (measureDistanceCm e []).
Proof.
  unfold measureDistanceCm. destruct (wrap_long (pulseIn e) =? 0); reflexivity.
Qed.

Lemma duration_of_echo (us : Z) :
  0 < us <= ECHO_TIMEOUT_US -> wrap_long (pulseIn (Echo us)) = us.
Proof.
  unfold ECHO_TIMEOUT_US, pulseIn, wrap_long, wrap_ulong, two32.
  change (2 ^ 32) with 4294967296. change (2 ^ 31) with 2147483648.
  intros H. rewrite (Z.mod_small us) by lia.
  rewrite Z.mod_small by lia. lia.
Qed.

Lemma measure_no_echo (t : list event) :
  fst (measureDistanceCm NoEcho t) = minus_one.
Proof. reflexivity. Qed.

Lemma measure_echo (us : Z) (t : list event) :
  0 < us <= ECHO_TIMEOUT_US ->
  fst (measureDistanceCm (Echo us) t)
  = fdiv (fmul (float_of_Z us) cm_per_us) two.
Proof.
  intros H. unfold measureDistanceCm. rewrite (duration_of_echo us H).
  replace (us =? 0) with false by (symmetry; apply Z.eqb_neq; lia).
  reflexivity.
Qed.

Lemma measure_echo_facts (us : Z) (t : list event) :
  0 < us <= ECHO_TIMEOUT_US ->
  let d := fst (measureDistanceCm (Echo us) t) in
  flt fzero d = true /\ flt d (float_of_Z 0) = false /\
  close_to d (exact_distance_cm us) = true.
Proof.
  intros H d. unfold d. rewrite measured_value_independent_of_trace.
  pose proof (echo_check_ok us H) as Hc. unfold echo_check in Hc.
  cbv zeta in Hc.
  apply andb_true_iff in Hc. destruct Hc as [Hc Hclose].
  apply andb_true_iff in Hc. destruct Hc as [Hpos Hneg].
  apply negb_true_iff in Hneg. auto.
Qed.

(** C8: [measureDistanceCm] returns the sentinel [-1.0] exactly when no
    echo pulse was received within the time-out of 30000 microseconds
    (30 ms) that it hands to [pulseIn]; otherwise it returns the measured
    distance in centimetres, [(duration * 0.0343f) / 2.0f], which is the
    distance the echo length stands for up to the relative error [1e-7]
    of the [float] computation. *)
Theorem measureDistanceCm_sentinel (e : echo) (t : list event) :
  echo_ok e ->
  let d := fst (measureDistanceCm e t) in
  (d = minus_one <-> e = NoEcho) /\
  (forall us, e = Echo us ->
     d = fdiv (fmul (float_of_Z us) cm_per_us) two /\
     close_to d (exact_distance_cm us) = true) /\
  snd (measureDistanceCm e t)
  = t ++ [DigitalWrite TRIG_PIN LOW; DelayMicroseconds 2;
          DigitalWrite TRIG_PIN HIGH; DelayMicroseconds 10;
          DigitalWrite TRIG_PIN LOW; PulseIn ECHO_PIN HIGH 30000].
Proof.
  intros Hok d. split; [|split].
  - destruct e as [|us]; simpl in Hok.
    + split; reflexivity.
    + split; [|discriminate].
      intros Hd. exfalso.
      destruct (measure_echo_facts us t Hok) as (Hpos & _ & _).
      fold d in Hpos. rewrite Hd in Hpos. discriminate.
  - intros us ->. simpl in Hok. split.
    + apply (measure_echo us t Hok).
    + apply (measure_echo_facts us t Hok).
  - unfold measureDistanceCm.
    destruct (wrap_long (pulseIn e) =? 0); simpl;
      rewrite <- !app_assoc; reflexivity.
Qed.

Lemma measureDistanceCm_sentinel_witness :
  fst (measureDistanceCm (Echo 1000) []) = minus_one <-> Echo 1000 = NoEcho.
Proof.
  apply (proj1 (measureDistanceCm_sentinel (Echo 1000) []
                  ltac:(unfold echo_ok, ECHO_TIMEOUT_US; lia))).
Defined.

(** C9: for every echo-pulse duration that [pulseIn] can report, the
    value returned by [measureDistanceCm] is either exactly [-1.0] (the
    duration is 0: time-out) or strictly positive (the duration is
    positive), so the test [d < 0] of [loop] is true exactly in the
    time-out case, and [loop] reports "No echo detected." exactly then. *)
Theorem sentinel_check_identifies_timeout (e : echo) (t : list event) :
  echo_ok e ->
  let duration := wrap_long (pulseIn e) in
  let d := fst (measureDistanceCm e t) in
  ((duration = 0 /\ d = minus_one) \/
   (0 < duration /\ flt fzero d = true /\
    d = fdiv (fmul (float_of_Z duration) cm_per_us) two)) /\
  (flt d (float_of_Z 0) = true <-> duration = 0) /\
  (duration = 0 <-> e = NoEcho) /\
  (fst (loop e t) = NoEchoDetected <-> e = NoEcho).
Proof.
  intros Hok duration d. destruct e as [|us]; simpl in Hok.
  - split; [left; split; reflexivity|].
    split; [split; reflexivity|]. split; split; reflexivity.
  - destruct (measure_echo_facts us t Hok) as (Hpos & Hneg & _).
    assert (Hdur : duration = us) by apply (duration_of_echo us Hok).
    split; [|split; [|split]].
    + right. rewrite Hdur. split; [lia|]. split; [exact Hpos|].
      apply (measure_echo us t Hok).
    + unfold d. rewrite Hneg, Hdur. split; [discriminate|lia].
    + rewrite Hdur. split; [lia|discriminate].
    + split; [|discriminate]. unfold loop.
      destruct (measureDistanceCm (Echo us) t) as [d' t'] eqn:Hm.
      cbn [fst] in Hneg. cbn [fst]. rewrite Hneg. discriminate.
Qed.

Lemma sentinel_check_identifies_timeout_witness :
  fst (loop (Echo 583) []) = NoEchoDetected <-> Echo 583 = NoEcho.
Proof.
  apply (proj2 (proj2 (proj2 (sentinel_check_identifies_timeout
           (Echo 583) [] ltac:(unfold echo_ok, ECHO_TIMEOUT_US; lia))))).
Defined.

End Ranging.

(* ===================================================================== *)
(** * Further properties of the code *)
(* ===================================================================== *)

(** ** The duty conversion *)

Section DutySteps.

Lemma clamp_percent_monotone (p q : Z) :
  p <= q -> clamp_percent p <= clamp_percent q.
Proof. unfold clamp_percent. lia. Qed.

(** X1: [speedPercentToPwm] never decreases when the speed grows, and
    between 0 and 100 percent it grows by 2 or 3 duty steps per percent:
    two different speeds of that range never get the same duty. *)
Theorem speedPercentToPwm_monotone (p q : Z) :
  p <= q ->
  speedPercentToPwm p <= speedPercentToPwm q /\
  (0 <= p -> q <= 100 ->
   speedPercentToPwm p + 2 * (q - p) <= speedPercentToPwm q /\
   speedPercentToPwm q <= speedPercentToPwm p + 3 * (q - p)).
Proof.
  intros Hpq. rewrite !speedPercentToPwm_floor. split.
  - apply Z.div_le_mono; [lia|].
    pose proof (clamp_percent_monotone p q Hpq). lia.
  - intros Hp Hq.
    replace (clamp_percent p) with p by (unfold clamp_percent; lia).
    replace (clamp_percent q) with q by (unfold clamp_percent; lia).
    pose proof (Z.div_mod (p * 255) 100 ltac:(lia)) as Hdp.
    pose proof (Z.mod_pos_bound (p * 255) 100 ltac:(lia)) as Hmp.
    pose proof (Z.div_mod (q * 255) 100 ltac:(lia)) as Hdq.
    pose proof (Z.mod_pos_bound (q * 255) 100 ltac:(lia)) as Hmq.
    lia.
Qed.

Lemma speedPercentToPwm_monotone_witness :
  speedPercentToPwm 59 + 2 * (60 - 59) <= speedPercentToPwm 60 /\
  speedPercentToPwm 60 <= speedPercentToPwm 59 + 3 * (60 - 59).
Proof.
  apply (proj2 (speedPercentToPwm_monotone 59 60 ltac:(lia)));
    lia.
Defined.

(** X2: the duty is 0 exactly for the speeds that are not positive, and it
    is the full duty 255 exactly for the speeds of 100 percent and more;
    every speed that passes the guards of [driveForward] and [rotate]
    therefore puts a duty of at least 2 on the motors. *)
Theorem speedPercentToPwm_extremes (p : Z) :
  (speedPercentToPwm p = 0 <-> p <= 0) /\
  (speedPercentToPwm p = 255 <-> 100 <= p) /\
  (0 < p <-> 2 <= speedPercentToPwm p).
Proof.
  assert (Hlow : p <= 0 -> speedPercentToPwm p = 0).
  { intros H. rewrite speedPercentToPwm_floor.
    replace (clamp_percent p) with 0 by (unfold clamp_percent; lia).
    reflexivity. }
  assert (Hbelow : p < 100 -> speedPercentToPwm p <= 252).
  { intros H. rewrite speedPercentToPwm_floor.
    assert (clamp_percent p <= 99) by (unfold clamp_percent; lia).
    pose proof (clamp_percent_range p).
    assert (clamp_percent p * 255 / 100 < 253)
      by (apply Z.div_lt_upper_bound; lia).
    lia. }
  split; [|split]; split; intros H.
  - destruct (Z.le_gt_cases p 0) as [Hle|Hgt]; [exact Hle|].
    pose proof (speedPercentToPwm_positive p ltac:(lia)). lia.
  - apply Hlow, H.
  - destruct (Z.le_gt_cases 100 p) as [Hle|Hgt]; [exact Hle|].
    pose proof (Hbelow ltac:(lia)). lia.
  - destruct (Z.eq_dec p 100) as [->|Hne]; [reflexivity|].
    apply speedPercentToPwm_over_range. lia.
  - apply speedPercentToPwm_positive, H.
  - destruct (Z.le_gt_cases p 0) as [Hle|Hgt]; [|lia].
    rewrite (Hlow Hle) in H. lia.
Qed.

End DutySteps.

(** ** The timed wait *)

Section WaitRounds.

(** X3: the wait loop is safe against the roll-over of [millis()]: whatever
    the clock shows when the loop starts, and for every run time an
    [unsigned long] can hold, the loop ends, after the run time rounded up
    to a multiple of 5 ms; it never ends early and never waits 5 ms or
    more beyond the run time. *)
Theorem wait_loop_rollover_safe (runTimeMs : Z) (s : state) :
  0 <= runTimeMs < two32 ->
  (exists fuel s', wait_loop fuel (millis s) runTimeMs s = Returned s') /\
  (forall fuel s',
     wait_loop fuel (millis s) runTimeMs s = Returned s' ->
     s' = run_events (polls (Z.to_nat ((runTimeMs + 4) / 5))) s /\
     clock s' - clock s = 5 * ((runTimeMs + 4) / 5) /\
     runTimeMs <= clock s' - clock s < runTimeMs + 5).
Proof.
  intros Hr. split; [apply (wait_loop_terminates runTimeMs s Hr)|].
  intros fuel s' H.
  destruct (wait_loop_first_exit fuel runTimeMs s s' H) as (n & -> & Hn).
  pose proof (first_exit_rounds runTimeMs n Hr Hn) as Hrounds.
  rewrite <- Hrounds, Nat2Z.id. split; [reflexivity|].
  rewrite clock_run_polls.
  pose proof (ceil5_bounds runTimeMs). lia.
Qed.

Lemma wait_loop_rollover_safe_witness :
  let s := {| out := out power_on; clock := 4294967290; trace := [] |} in
  exists s',
    wait_loop 5 (millis s) 22 s = Returned s' /\
    clock s' - clock s = 5 * ((22 + 4) / 5).
Proof.
  intros s. eexists. split.
  - vm_compute. reflexivity.
  - apply (proj2 (wait_loop_rollover_safe 22 s ltac:(unfold two32; lia))
                 5%nat).
    vm_compute. reflexivity.
Defined.

End WaitRounds.

(** ** The motion commands *)

Section MotionExtras.

(** X4: for every nonzero angle and positive speed whose run time is
    computed without undefined behaviour, [rotate] returns, and it has
    driven the motors, and blocked its caller, for the run time rounded up
    to a multiple of 5 ms: at least the run time, less than 5 ms more. *)
Theorem rotate_driven_time
    (cal : calibration) (angle_deg : float) (speed_percent runTimeMs : Z)
    (s : state) :
  feq angle_deg fzero = false -> 0 < speed_percent ->
  rotate_runTimeMs cal angle_deg = Some runTimeMs ->
  (exists fuel s', rotate cal fuel angle_deg speed_percent s = Returned s') /\
  (forall fuel s',
     rotate cal fuel angle_deg speed_percent s = Returned s' ->
     driven_ms (new_events s s') (out s) = 5 * ((runTimeMs + 4) / 5) /\
     clock s' - clock s = 5 * ((runTimeMs + 4) / 5) /\
     runTimeMs <= driven_ms (new_events s s') (out s) < runTimeMs + 5).
Proof.
  intros Ha Hp Hr. split.
  - apply (rotate_returns cal angle_deg speed_percent runTimeMs s Hr).
  - intros fuel s' H.
    destruct (rotate_motion cal fuel angle_deg speed_percent runTimeMs s s'
                Ha Hp Hr H) as (n & Hn & _ & Hdriven & Hclock).
    apply to_unsigned_long_some in Hr. destruct Hr as [_ Hrange].
    rewrite Hdriven, Hclock, (first_exit_rounds runTimeMs n Hrange Hn).
    split; [reflexivity|]. split; [reflexivity|]. apply ceil5_bounds.
Qed.

Lemma rotate_driven_time_witness :
  exists s',
    rotate default_calibration 152 (float_of_Z 90) 60 (setup power_on)
      = Returned s' /\
    driven_ms (new_events (setup power_on) s') (out (setup power_on))
    = 5 * ((756 + 4) / 5).
Proof.
  eexists. split.
  - vm_compute. reflexivity.
  - apply (proj2 (rotate_driven_time default_calibration (float_of_Z 90) 60 756
                    (setup power_on) eq_refl ltac:(lia) eq_refl) 152%nat).
    vm_compute. reflexivity.
Defined.

(** X5: for every positive distance and positive speed, a call of
    [driveForward] that returns has written IN1 high, IN2 low, IN3 high and
    IN4 low, then the same duty on both PWM channels, has waited, and has
    stopped; during every round of the wait both motors are Forward with
    that duty, which lies between 2 and 255. *)
Theorem driveForward_both_forward
    (cal : calibration) (distance_cm : float) (speed_percent : Z) (s : state) :
  flt fzero distance_cm = true -> 0 < speed_percent ->
  let pwm := speedPercentToPwm speed_percent in
  let writes :=
    [DigitalWrite IN1 HIGH; DigitalWrite IN2 LOW;
     DigitalWrite IN3 HIGH; DigitalWrite IN4 LOW;
     LedcWrite PWM_CHANNEL_LEFT pwm; LedcWrite PWM_CHANNEL_RIGHT pwm] in
  (forall fuel s',
     driveForward cal fuel distance_cm speed_percent s = Returned s' ->
     exists n, new_events s s' = writes ++ polls n ++ stop_writes) /\
  (forall k,
     let o := outputs_after (writes ++ polls k) (out s) in
     left_direction o = Forward /\ right_direction o = Forward /\
     duty_left o = pwm /\ duty_right o = pwm) /\
  2 <= pwm <= 255.
Proof.
  intros Hd Hp pwm writes. split; [|split].
  - intros fuel s' H.
    destruct (driveForward_returned cal fuel distance_cm speed_percent s s'
                (positive_not_le_zero _ Hd) Hp H) as (r & n & _ & _ & ->).
    exists n. apply new_events_run_events.
  - intros k. cbv zeta.
    rewrite outputs_after_app, outputs_after_polls. repeat split.
  - pose proof (speedPercentToPwm_positive speed_percent Hp).
    pose proof (speedPercentToPwm_range speed_percent). unfold pwm. lia.
Qed.

Lemma driveForward_both_forward_witness :
  2 <= speedPercentToPwm 60 <= 255.
Proof.
  apply (proj2 (proj2 (driveForward_both_forward default_calibration
                         (float_of_Z 30) 60 power_on eq_refl ltac:(lia)))).
Defined.

Lemma wait_loop_zero (fuel : nat) (start : Z) (s : state) :
  wait_loop fuel start 0 s = Returned s.
Proof.
  assert (H : (wrap_ulong (millis s - start) <? 0) = false).
  { apply Z.ltb_ge. unfold wrap_ulong, two32. apply Z.mod_pos_bound. lia. }
  destruct fuel; simpl; rewrite H; reflexivity.
Qed.

(** X6: a positive distance, or a nonzero angle, so small that the run
    time rounds to 0 is not treated as "nothing to do": the direction lines
    and the duty are written and the motors are stopped at once, without
    any wait; no time passes and the motors are driven for 0 ms. *)
Theorem zero_run_time_pulses_outputs
    (cal : calibration) (fuel : nat) (speed_percent : Z) (s : state) :
  0 < speed_percent ->
  let pwm := speedPercentToPwm speed_percent in
  (forall distance_cm,
     flt fzero distance_cm = true ->
     driveForward_runTimeMs cal distance_cm = Some 0 ->
     let s' := run_events (drive_writes pwm ++ stop_writes) s in
     driveForward cal fuel distance_cm speed_percent s = Returned s' /\
     clock s' = clock s /\ driven_ms (new_events s s') (out s) = 0) /\
  (forall angle_deg,
     feq angle_deg fzero = false ->
     rotate_runTimeMs cal angle_deg = Some 0 ->
     let s' := run_events (turn_writes angle_deg pwm ++ stop_writes) s in
     rotate cal fuel angle_deg speed_percent s = Returned s' /\
     clock s' = clock s /\ driven_ms (new_events s s') (out s) = 0).
Proof.
  intros Hp pwm. split.
  - intros d Hd Hr s'. split; [|split].
    + rewrite (driveForward_unfold cal fuel d speed_percent 0 s
                 (positive_not_le_zero d Hd) Hp Hr).
      cbv zeta. rewrite wait_loop_zero. unfold s'.
      rewrite run_events_app. reflexivity.
    + unfold s'. rewrite run_events_app.
      rewrite (clock_run_instantaneous _ instantaneous_stop_writes).
      apply (clock_run_instantaneous _ (instantaneous_drive_writes pwm)).
    + unfold s'. rewrite new_events_run_events, driven_ms_app.
      rewrite (driven_ms_instantaneous _ (instantaneous_drive_writes pwm)).
      rewrite (driven_ms_instantaneous _ instantaneous_stop_writes).
      reflexivity.
  - intros a Ha Hr s'. split; [|split].
    + rewrite (rotate_unfold cal fuel a speed_percent 0 s Ha Hp Hr).
      cbv zeta. rewrite wait_loop_zero. unfold s'.
      rewrite run_events_app. reflexivity.
    + unfold s'. rewrite run_events_app.
      rewrite (clock_run_instantaneous _ instantaneous_stop_writes).
      apply (clock_run_instantaneous _ (instantaneous_turn_writes a pwm)).
    + unfold s'. rewrite new_events_run_events, driven_ms_app.
      rewrite (driven_ms_instantaneous _ (instantaneous_turn_writes a pwm)).
      rewrite (driven_ms_instantaneous _ instantaneous_stop_writes).
      reflexivity.
Qed.

Lemma zero_run_time_pulses_outputs_witness :
  driveForward default_calibration 0 (float_of_decimal 1 1000) 60 power_on
  = Returned (run_events (drive_writes (speedPercentToPwm 60) ++ stop_writes)
                         power_on).
Proof.
  apply (proj1 (proj1 (zero_run_time_pulses_outputs default_calibration 0 60
                         power_on ltac:(lia))
                      (float_of_decimal 1 1000) eq_refl eq_refl)).
Defined.

Lemma wait_loop_defined (fuel : nat) (start r : Z) :
  forall s, wait_loop fuel start r s <> Undefined.
Proof.
  induction fuel as [|fuel IH]; intros s; simpl;
    destruct (wrap_ulong (millis s - start) <? r); try discriminate.
  apply IH.
Qed.

Lemma wait_then_stop_defined (fuel : nat) (r : Z) (s1 : state) :
  bind (wait_loop fuel (millis s1) r s1) (fun s => Returned (stopMotors s))
  <> Undefined.
Proof.
  pose proof (wait_loop_defined fuel (millis s1) r s1) as Hw.
  destruct (wait_loop fuel (millis s1) r s1); simpl;
    [discriminate|contradiction|discriminate].
Qed.

(** The behaviour of a command is undefined exactly when it passes the
    guard of its function and the rounded product is negative, too large
    for an [unsigned long], or not a number; whether this happens does not
    depend on the state of the hardware. *)
Theorem call_undefined_iff
    (cal : calibration) (fuel : nat) (c : command) (s : state) :
  call cal fuel c s = Undefined <-> well_defined cal c = false.
Proof.
  unfold well_defined. destruct c as [d p|a p|]; simpl.
  - unfold driveForward. destruct (fle d fzero || (p <=? 0)); simpl.
    + split; discriminate.
    + destruct (driveForward_runTimeMs cal d) as [r|]; [|split; reflexivity].
      cbv zeta. split; [|discriminate].
      intros H. exfalso. exact (wait_then_stop_defined _ _ _ H).
  - unfold rotate. destruct (feq a fzero || (p <=? 0)); simpl.
    + split; discriminate.
    + destruct (rotate_runTimeMs cal a) as [r|]; [|split; reflexivity].
      cbv zeta. split; [|discriminate].
      intros H. exfalso. exact (wait_then_stop_defined _ _ _ H).
  - split; discriminate.
Qed.

(** X7: a distance or an angle that is not a number, and an infinite angle
    or positive distance, pass the guards ([NaN <= 0.0] and [NaN == 0] are
    false) and reach the cast of a value that no [unsigned long] holds:
    with a positive speed the call has undefined behaviour, for every
    calibration; a negative infinite distance takes the early return. *)
Theorem nonfinite_arguments
    (cal : calibration) (fuel : nat) (speed_percent : Z) (s : state) :
  0 < speed_percent ->
  driveForward cal fuel S754_nan speed_percent s = Undefined /\
  driveForward cal fuel (S754_infinity false) speed_percent s = Undefined /\
  driveForward cal fuel (S754_infinity true) speed_percent s = Returned s /\
  rotate cal fuel S754_nan speed_percent s = Undefined /\
  (forall sign, rotate cal fuel (S754_infinity sign) speed_percent s = Undefined).
Proof.
  intros Hp.
  assert (Hg : (speed_percent <=? 0) = false) by (apply Z.leb_gt; exact Hp).
  assert (Hinf : forall m, round (fmul (S754_infinity false) m) = None)
    by (intros [sm|sm| |sm mm em]; reflexivity).
  split; [|split; [|split; [|split]]].
  - unfold driveForward, driveForward_runTimeMs. rewrite Hg. reflexivity.
  - unfold driveForward, driveForward_runTimeMs. rewrite Hg, Hinf. reflexivity.
  - unfold driveForward. reflexivity.
  - unfold rotate, rotate_runTimeMs. rewrite Hg. reflexivity.
  - intros sign. unfold rotate, rotate_runTimeMs. rewrite Hg.
    change (fabs (S754_infinity sign)) with (S754_infinity false).
    rewrite Hinf. destruct sign; reflexivity.
Qed.

Lemma nonfinite_arguments_witness :
  driveForward default_calibration 10 S754_nan 60 power_on = Undefined.
Proof.
  apply (proj1 (nonfinite_arguments default_calibration 10 60 power_on
                  ltac:(lia))).
Defined.

End MotionExtras.

(** ** What the bridge sees at every instant *)

Section Safety.

Lemma always_safe_now (evs : list event) (o : outputs) :
  always_safe evs o = true -> safe_outputs o = true.
Proof.
  destruct evs as [|e evs]; simpl; [auto|].
  intros H. apply andb_true_iff in H. apply H.
Qed.

Lemma always_safe_app (a b : list event) :
  forall o, always_safe a o = true ->
            always_safe b (outputs_after a o) = true ->
            always_safe (a ++ b) o = true.
Proof.
  induction a as [|e a IH]; intros o Ha Hb; simpl in *; [exact Hb|].
  apply andb_true_iff in Ha. destruct Ha as [Hnow Ha].
  apply andb_true_iff. split; [exact Hnow|].
  apply IH; assumption.
Qed.

Lemma always_safe_polls (n : nat) (o : outputs) :
  safe_outputs o = true -> always_safe (polls n) o = true.
Proof.
  intros H. induction n as [|n IH]; simpl; [exact H|].
  rewrite H. exact IH.
Qed.

Lemma motors_stopped_eq (o : outputs) :
  motors_stopped o -> o = stopped_outputs.
Proof.
  destruct o as [a b c d l r]. unfold motors_stopped. simpl.
  intros (-> & -> & -> & -> & -> & ->). reflexivity.
Qed.

(** The writes that start a motion, the wait and the stop, from stopped
    outputs. *)
Lemma always_safe_motion (writes : list event) (pwm : Z) (n : nat) :
  0 <= pwm <= 255 ->
  writes = drive_writes pwm \/ writes = turn_right_writes pwm \/
  writes = turn_left_writes pwm ->
  always_safe (writes ++ polls n ++ stop_writes) stopped_outputs = true.
Proof.
  intros Hpwm Hw.
  assert (H0 : (0 <=? pwm) = true) by (apply Z.leb_le; lia).
  assert (H255 : (pwm <=? 255) = true) by (apply Z.leb_le; lia).
  destruct Hw as [ -> | [ -> | -> ] ].
  all: apply always_safe_app;
    [cbn; unfold safe_outputs; cbn; rewrite ?H0, ?H255; reflexivity|].
  all: apply always_safe_app;
    [apply always_safe_polls; cbn; unfold safe_outputs; cbn;
     rewrite ?H0, ?H255; reflexivity|].
  all: rewrite outputs_after_polls; cbn; unfold safe_outputs; cbn;
    rewrite ?H0, ?H255; reflexivity.
Qed.

Lemma new_events_same (s : state) : new_events s s = [].
Proof.
  unfold new_events. induction (trace s) as [|e l IH]; simpl; auto.
Qed.

(** The hardware calls of a command that returns. *)
Lemma call_events (cal : calibration) (fuel : nat) (c : command)
    (s s' : state) :
  call cal fuel c s = Returned s' ->
  new_events s s' = [] \/
  new_events s s' = stop_writes \/
  exists writes p n,
    0 < p /\
    (writes = drive_writes (speedPercentToPwm p) \/
     writes = turn_right_writes (speedPercentToPwm p) \/
     writes = turn_left_writes (speedPercentToPwm p)) /\
    new_events s s' = writes ++ polls n ++ stop_writes.
Proof.
  destruct c as [d p|a p|]; simpl.
  - destruct (fle d fzero || (p <=? 0)) eqn:Hg.
    + unfold driveForward. rewrite Hg. intros H. injection H as <-.
      left. apply new_events_same.
    + apply orb_false_iff in Hg. destruct Hg as [Hd Hp].
      apply Z.leb_gt in Hp. intros H.
      destruct (driveForward_returned cal fuel d p s s' Hd Hp H)
        as (r & n & _ & _ & ->).
      right. right. exists (drive_writes (speedPercentToPwm p)), p, n.
      split; [exact Hp|]. split; [left; reflexivity|].
      apply new_events_run_events.
  - destruct (feq a fzero || (p <=? 0)) eqn:Hg.
    + unfold rotate. rewrite Hg. intros H. injection H as <-.
      left. apply new_events_same.
    + apply orb_false_iff in Hg. destruct Hg as [Ha Hp].
      apply Z.leb_gt in Hp. intros H.
      destruct (rotate_returned cal fuel a p s s' Ha Hp H)
        as (r & n & _ & _ & ->).
      right. right.
      exists (turn_writes a (speedPercentToPwm p)), p, n.
      split; [exact Hp|]. split.
      * unfold turn_writes. destruct (flt fzero a); auto.
      * apply new_events_run_events.
  - intros H. injection H as <-. right. left.
    rewrite stopMotors_run_events. apply new_events_run_events.
Qed.

(** X8: in every state the sketch can be in, at no instant of a call of
    [driveForward], [rotate] or [stopMotors] (before, between and after its
    hardware calls) does a motor have both of its direction lines high,
    and both duties stay within 0..255: the bridge is never put in its
    brake state, and the 8-bit PWM range is never left. *)
Theorem outputs_always_safe
    (cal : calibration) (fuel : nat) (c : command) (s s' : state) :
  reachable cal s ->
  call cal fuel c s = Returned s' ->
  always_safe (new_events s s') (out s) = true.
Proof.
  intros Hs Hc.
  rewrite (motors_stopped_eq _ (reachable_stopped cal s Hs)).
  destruct (call_events cal fuel c s s' Hc)
    as [ -> | [ -> | (writes & p & n & Hp & Hw & ->) ] ].
  - reflexivity.
  - reflexivity.
  - apply (always_safe_motion writes (speedPercentToPwm p) n);
      [apply speedPercentToPwm_range|exact Hw].
Qed.

Lemma outputs_always_safe_witness :
  exists s',
    call default_calibration 152 (Rotate (float_of_Z (-90)) 60) (setup power_on)
      = Returned s' /\
    always_safe (new_events (setup power_on) s') (out (setup power_on)) = true.
Proof.
  eexists. split.
  - vm_compute. reflexivity.
  - apply (outputs_always_safe default_calibration 152
             (Rotate (float_of_Z (-90)) 60) (setup power_on) _
             (reach_setup default_calibration power_on)).
    vm_compute. reflexivity.
Defined.

Lemma forallb_polls (n : nat) : forallb motion_event (polls n) = true.
Proof. induction n as [|n IH]; simpl; auto. Qed.

Lemma forallb_motion_writes (writes : list event) (pwm : Z) :
  0 <= pwm <= 255 ->
  writes = drive_writes pwm \/ writes = turn_right_writes pwm \/
  writes = turn_left_writes pwm ->
  forallb motion_event writes = true.
Proof.
  intros Hpwm Hw.
  assert (H0 : (0 <=? pwm) = true) by (apply Z.leb_le; lia).
  assert (H255 : (pwm <=? 255) = true) by (apply Z.leb_le; lia).
  destruct Hw as [ -> | [ -> | -> ] ]; cbn; rewrite H0, H255; reflexivity.
Qed.

(** X9: whatever the state it is called in, a command that returns has
    made every [digitalWrite] on one of the four direction pins IN1..IN4,
    every [ledcWrite] on one of the two PWM channels with a duty of 0..255,
    and every [delay] for 5 ms; it has made no [pinMode], [ledcSetup] or
    [ledcAttachPin] call.  (The [Serial] prints of the commands and their
    reads of [millis()] are not among the calls that the trace records, and
    the property says nothing of them.) *)
Theorem commands_touch_only_the_motor_pins
    (cal : calibration) (fuel : nat) (c : command) (s s' : state) :
  call cal fuel c s = Returned s' ->
  forallb motion_event (new_events s s') = true.
Proof.
  intros Hc.
  destruct (call_events cal fuel c s s' Hc)
    as [ -> | [ -> | (writes & p & n & Hp & Hw & ->) ] ].
  - reflexivity.
  - reflexivity.
  - rewrite !forallb_app, forallb_polls.
    rewrite (forallb_motion_writes writes (speedPercentToPwm p)
               (speedPercentToPwm_range p) Hw).
    reflexivity.
Qed.

Lemma commands_touch_only_the_motor_pins_witness :
  exists s',
    call default_calibration 480 (DriveForward (float_of_Z 30) 60) power_on
      = Returned s' /\
    forallb motion_event (new_events power_on s') = true.
Proof.
  eexists. split.
  - vm_compute. reflexivity.
  - apply (commands_touch_only_the_motor_pins default_calibration 480
             (DriveForward (float_of_Z 30) 60) power_on).
    vm_compute. reflexivity.
Defined.

End Safety.

(** ** Sequences of commands *)

Section Sequences.

Lemma run_commands_app (cal : calibration) (fuel : nat) (a b : list command) :
  forall s, run_commands cal fuel (a ++ b) s
            = bind (run_commands cal fuel a s) (run_commands cal fuel b).
Proof.
  induction a as [|c a IH]; intros s; simpl; [reflexivity|].
  destruct (call cal fuel c s) as [s1| |]; simpl; auto.
Qed.

Lemma clock_motion (writes : list event) (n : nat) (s : state) :
  instantaneous writes ->
  clock (run_events (writes ++ polls n ++ stop_writes) s)
  = clock s + 5 * Z.of_nat n.
Proof.
  intros Hw. rewrite !run_events_app.
  rewrite (clock_run_instantaneous _ instantaneous_stop_writes).
  rewrite clock_run_polls, (clock_run_instantaneous _ Hw). reflexivity.
Qed.

Lemma call_clock (cal : calibration) (fuel : nat) (c : command)
    (s s' : state) :
  call cal fuel c s = Returned s' -> clock s <= clock s'.
Proof.
  destruct c as [d p|a p|]; simpl.
  - destruct (fle d fzero || (p <=? 0)) eqn:Hg.
    + unfold driveForward. rewrite Hg. intros H. injection H as <-. lia.
    + apply orb_false_iff in Hg. destruct Hg as [Hd Hp].
      apply Z.leb_gt in Hp. intros H.
      destruct (driveForward_returned cal fuel d p s s' Hd Hp H)
        as (r & n & _ & _ & ->).
      rewrite (clock_motion _ n s (instantaneous_drive_writes _)). lia.
  - destruct (feq a fzero || (p <=? 0)) eqn:Hg.
    + unfold rotate. rewrite Hg. intros H. injection H as <-. lia.
    + apply orb_false_iff in Hg. destruct Hg as [Ha Hp].
      apply Z.leb_gt in Hp. intros H.
      destruct (rotate_returned cal fuel a p s s' Ha Hp H)
        as (r & n & _ & _ & ->).
      rewrite (clock_motion _ n s (instantaneous_turn_writes _ _)). lia.
  - intros H. injection H as <-. rewrite clock_stopMotors. lia.
Qed.

Lemma run_commands_reachable (cal : calibration) (fuel : nat)
    (cs : list command) :
  forall s s', reachable cal s -> run_commands cal fuel cs s = Returned s' ->
               reachable cal s' /\ clock s <= clock s'.
Proof.
  induction cs as [|c cs IH]; intros s s' Hs; simpl.
  - intros H. injection H as <-. split; [exact Hs|lia].
  - destruct (call cal fuel c s) as [s1| |] eqn:Hc; simpl; try discriminate.
    intros H.
    destruct (IH s1 s' (reach_call cal s fuel c s1 Hs Hc) H) as [Hr Hclock].
    split; [exact Hr|]. pose proof (call_clock cal fuel c s s1 Hc). lia.
Qed.

(** X10: in a sequence of commands, the ones that take the early return
    can be left out without changing the outcome; a sequence called in a
    state the sketch can be in ends, when it returns, with both motors
    stopped, never before the time it was called at; and a [stopMotors()]
    added at its end changes neither the outputs nor the time. *)
Theorem command_sequences
    (cal : calibration) (fuel : nat) (cs : list command) (s : state) :
  run_commands cal fuel cs s = run_commands cal fuel (effective cs) s /\
  (forall s',
     reachable cal s -> run_commands cal fuel cs s = Returned s' ->
     motors_stopped (out s') /\ clock s <= clock s' /\
     exists s'',
       run_commands cal fuel (cs ++ [StopMotors]) s = Returned s'' /\
       out s'' = out s' /\ clock s'' = clock s').
Proof.
  split.
  - revert s. induction cs as [|c cs IH]; intros s; [reflexivity|].
    unfold effective. simpl. destruct (is_noop c) eqn:Hn; simpl.
    + rewrite (noop_call_returns_same cal fuel c s Hn). simpl. apply IH.
    + destruct (call cal fuel c s) as [s1| |]; simpl;
        [apply IH|reflexivity|reflexivity].
  - intros s' Hs H.
    destruct (run_commands_reachable cal fuel cs s s' Hs H) as [Hr Hclock].
    pose proof (reachable_stopped cal s' Hr) as Hstop.
    split; [exact Hstop|]. split; [exact Hclock|].
    exists (stopMotors s'). rewrite run_commands_app, H. simpl.
    split; [reflexivity|]. split; [|apply clock_stopMotors].
    rewrite (motors_stopped_eq _ Hstop). reflexivity.
Qed.

Lemma command_sequences_witness :
  exists s',
    run_commands default_calibration 152
      [Rotate (float_of_Z 90) 60; DriveForward (float_of_Z 0) 50]
      (setup power_on) = Returned s' /\
    motors_stopped (out s').
Proof.
  eexists. split.
  - vm_compute. reflexivity.
  - apply (proj2 (command_sequences default_calibration 152
                    [Rotate (float_of_Z 90) 60; DriveForward (float_of_Z 0) 50]
                    (setup power_on)) _
                 (reach_setup default_calibration power_on)).
    vm_compute. reflexivity.
Defined.

(** X11: for every calibration, the demonstration of [loop()], when it
    reaches its idle loop, has turned right and then left with the same
    duty 153 and for the same number of 5 ms rounds, with a pause of one
    second after each turn: the two turns are driven equally long, the
    motors are stopped at the end, and the time spent is two seconds plus
    twice the turn. *)
Theorem loop_turns_are_symmetric
    (cal : calibration) (fuel : nat) (s s' : state) :
  Robotek.loop cal fuel s = Returned s' ->
  exists n,
    new_events s s' =
      turn_right_writes 153 ++ polls n ++ stop_writes ++ [Delay 1000] ++
      turn_left_writes 153 ++ polls n ++ stop_writes ++ [Delay 1000] /\
    first_exit_of (rotate_runTimeMs cal (float_of_Z 90)) n /\
    clock s' - clock s = 2000 + 2 * (5 * Z.of_nat n) /\
    motors_stopped (out s').
Proof.
  unfold Robotek.loop.
  destruct (rotate cal fuel (float_of_Z 90) 60 s) as [s1| |] eqn:H1;
    cbn [bind]; try discriminate.
  destruct (rotate cal fuel (float_of_Z (-90)) 60 (delay 1000 s1))
    as [s2| |] eqn:H2; cbn [bind]; try discriminate.
  intros H. injection H as <-.
  destruct (rotate_returned cal fuel (float_of_Z 90) 60 s s1
              eq_refl ltac:(lia) H1) as (r1 & n1 & Hr1 & Hn1 & ->).
  destruct (rotate_returned cal fuel (float_of_Z (-90)) 60 _ s2
              eq_refl ltac:(lia) H2) as (r2 & n2 & Hr2 & Hn2 & ->).
  change (float_of_Z (-90)) with (fneg (float_of_Z 90)) in Hr2.
  rewrite rotate_runTimeMs_fneg, Hr1 in Hr2. injection Hr2 as <-.
  rewrite (first_exit_unique r1 n2 n1 Hn2 Hn1).
  change (turn_writes (float_of_Z 90) (speedPercentToPwm 60))
    with (turn_right_writes 153).
  change (turn_writes (float_of_Z (-90)) (speedPercentToPwm 60))
    with (turn_left_writes 153).
  set (first := turn_right_writes 153 ++ polls n1 ++ stop_writes).
  set (second := turn_left_writes 153 ++ polls n1 ++ stop_writes).
  assert (Hall : delay 1000 (run_events second (delay 1000 (run_events first s)))
                 = run_events (first ++ [Delay 1000] ++ second ++ [Delay 1000]) s).
  { rewrite !run_events_app. reflexivity. }
  exists n1. split; [|split; [|split]].
  - rewrite Hall, new_events_run_events. unfold first, second.
    rewrite <- !app_assoc. reflexivity.
  - unfold first_exit_of. rewrite Hr1. exact Hn1.
  - unfold delay, do_event. cbn [clock duration].
    unfold second. rewrite (clock_motion _ n1 _ (instantaneous_turn_left_writes _)).
    cbn [clock]. unfold first.
    rewrite (clock_motion _ n1 s (instantaneous_turn_right_writes _)). lia.
  - unfold second. rewrite !run_events_app. repeat split.
Qed.

Lemma loop_turns_are_symmetric_witness :
  exists s',
    Robotek.loop default_calibration 152 (setup power_on) = Returned s' /\
    exists n,
      new_events (setup power_on) s' =
        turn_right_writes 153 ++ polls n ++ stop_writes ++ [Delay 1000] ++
        turn_left_writes 153 ++ polls n ++ stop_writes ++ [Delay 1000] /\
      first_exit_of (rotate_runTimeMs default_calibration (float_of_Z 90)) n /\
      clock s' - clock (setup power_on) = 2000 + 2 * (5 * Z.of_nat n) /\
      motors_stopped (out s').
Proof.
  eexists. split.
  - vm_compute. reflexivity.
  - apply (loop_turns_are_symmetric default_calibration 152 (setup power_on)).
    vm_compute. reflexivity.
Defined.

End Sequences.

(** ** The ranging utility *)

Section RangingSteps.

Import Sonar.

Lemma echo_steps_checked :
  steps_ok (Z.to_nat ECHO_TIMEOUT_US) 1 (measured 1) = true.
Proof. vm_compute. reflexivity. Qed.

Lemma steps_ok_spec :
  forall n us, steps_ok n us (measured us) = true ->
  forall z, us <= z < us + Z.of_nat n ->
            step_ok (measured z) (measured (z + 1)) = true.
Proof.
  induction n as [|n IH]; intros us H z Hz.
  - simpl in Hz. lia.
  - cbn [steps_ok] in H. cbv zeta in H.
    apply andb_true_iff in H. destruct H as [Hnow Hrest].
    destruct (Z.eq_dec z us) as [->|Hne]; [exact Hnow|].
    apply (IH (us + 1) Hrest). lia.
Qed.

Lemma Qlt_bool_lt (x y : Q) : Qlt_bool x y = true -> (x < y)%Q.
Proof.
  unfold Qlt_bool. intros H. apply negb_true_iff in H.
  apply Qnot_le_lt. intros Hle. apply Qle_bool_iff in Hle. congruence.
Qed.

(** What the check gives for one echo length. *)
Lemma echo_step (us : Z) (t : list event) :
  0 < us <= ECHO_TIMEOUT_US ->
  float_value (fst (measureDistanceCm (Echo us) t)) = Some (distance_value us) /\
  (17 # 1000 <= distance_value us)%Q /\ (distance_value us <= 515 # 1)%Q /\
  (distance_value us < distance_value (us + 1))%Q /\
  flt (fst (measureDistanceCm (Echo us) t))
      (fst (measureDistanceCm (Echo (us + 1)) t)) = true.
Proof.
  intros H.
  assert (Hc : step_ok (measured us) (measured (us + 1)) = true).
  { apply (steps_ok_spec _ 1 echo_steps_checked).
    rewrite Z2Nat.id by (unfold ECHO_TIMEOUT_US; lia). lia. }
  rewrite !(measured_value_independent_of_trace _ t).
  unfold step_ok, measured in Hc. unfold distance_value.
  destruct (float_value (fst (measureDistanceCm (Echo us) []))) as [q|];
    [|discriminate].
  destruct (float_value (fst (measureDistanceCm (Echo (us + 1)) [])))
    as [q'|]; [|discriminate].
  apply andb_true_iff in Hc. destruct Hc as [Hc Hflt].
  apply andb_true_iff in Hc. destruct Hc as [Hc Hlt].
  apply andb_true_iff in Hc. destruct Hc as [Hlo Hhi].
  split; [reflexivity|].
  split; [apply Qle_bool_iff, Hlo|].
  split; [apply Qle_bool_iff, Hhi|].
  split; [apply Qlt_bool_lt, Hlt|exact Hflt].
Qed.

Lemma distance_value_increasing (k : nat) :
  forall us, 0 < us -> us + Z.of_nat k <= ECHO_TIMEOUT_US ->
             (distance_value us < distance_value (us + Z.of_nat (S k)))%Q.
Proof.
  induction k as [|k IH]; intros us Hpos Hle.
  - replace (us + Z.of_nat 1) with (us + 1) by lia.
    apply (echo_step us []). lia.
  - apply Qlt_trans with (distance_value (us + Z.of_nat (S k))).
    + apply IH; lia.
    + replace (us + Z.of_nat (S (S k))) with (us + Z.of_nat (S k) + 1) by lia.
      apply (echo_step (us + Z.of_nat (S k)) []). lia.
Qed.

(** X12: on the echo lengths that [pulseIn] can report under its time-out,
    the distance returned by [measureDistanceCm] grows strictly with the
    echo length: a longer echo always gives a larger distance, and two
    echoes of different lengths never give the same distance. *)
Theorem measureDistanceCm_strictly_increasing
    (us1 us2 : Z) (t1 t2 : list event) :
  0 < us1 -> us1 < us2 -> us2 <= ECHO_TIMEOUT_US ->
  exists q1 q2,
    float_value (fst (measureDistanceCm (Echo us1) t1)) = Some q1 /\
    float_value (fst (measureDistanceCm (Echo us2) t2)) = Some q2 /\
    (q1 < q2)%Q.
Proof.
  intros H1 H12 H2.
  exists (distance_value us1), (distance_value us2).
  split; [apply (echo_step us1 t1); lia|].
  split; [apply (echo_step us2 t2); lia|].
  replace us2 with (us1 + Z.of_nat (S (Z.to_nat (us2 - us1 - 1)))) at 1
    by (rewrite Nat2Z.inj_succ, Z2Nat.id; lia).
  apply distance_value_increasing; [exact H1|].
  rewrite Z2Nat.id by lia. lia.
Qed.

Lemma measureDistanceCm_strictly_increasing_witness :
  exists q1 q2,
    float_value (fst (measureDistanceCm (Echo 583) [])) = Some q1 /\
    float_value (fst (measureDistanceCm (Echo 5830) [])) = Some q2 /\
    (q1 < q2)%Q.
Proof.
  apply (measureDistanceCm_strictly_increasing 583 5830 [] []);
    unfold ECHO_TIMEOUT_US; lia.
Defined.

(** X13: every distance that [measureDistanceCm] returns for an echo is a
    finite number between 0.017 cm and 515 cm, the "about 5 meters" that
    the time-out of 30 ms stands for; and it is strictly below, in the
    comparison of [float], the distance returned for an echo that is one
    microsecond longer. *)
Theorem measureDistanceCm_range (us : Z) (t : list event) :
  0 < us <= ECHO_TIMEOUT_US ->
  exists q,
    float_value (fst (measureDistanceCm (Echo us) t)) = Some q /\
    (17 # 1000 <= q)%Q /\ (q <= 515 # 1)%Q /\
    flt (fst (measureDistanceCm (Echo us) t))
        (fst (measureDistanceCm (Echo (us + 1)) t)) = true.
Proof.
  intros H. exists (distance_value us).
  destruct (echo_step us t H) as (Hv & Hlo & Hhi & _ & Hflt).
  auto.
Qed.

Lemma measureDistanceCm_range_witness :
  exists q,
    float_value (fst (measureDistanceCm (Echo 30000) [])) = Some q /\
    (17 # 1000 <= q)%Q /\ (q <= 515 # 1)%Q /\
    flt (fst (measureDistanceCm (Echo 30000) []))
        (fst (measureDistanceCm (Echo (30000 + 1)) [])) = true.
Proof.
  apply (measureDistanceCm_range 30000 []). unfold ECHO_TIMEOUT_US. lia.
Defined.

(** X14: one pass of [loop()] always makes the same hardware calls, the
    trigger pulse of 10 microseconds, the measurement of the echo with the
    time-out, and the pause of 200 ms, whatever the sensor answers; it
    reports the measured distance itself, a positive number, whenever an
    echo came back. *)
Theorem loop_reports_measured_distance (e : echo) (t : list event) :
  echo_ok e ->
  snd (loop e t)
  = t ++ [DigitalWrite TRIG_PIN LOW; DelayMicroseconds 2;
          DigitalWrite TRIG_PIN HIGH; DelayMicroseconds 10;
          DigitalWrite TRIG_PIN LOW; PulseIn ECHO_PIN HIGH 30000;
          Delay 200] /\
  (forall us, e = Echo us ->
     fst (loop e t) = Distance (fdiv (fmul (float_of_Z us) cm_per_us) two) /\
     flt fzero (fdiv (fmul (float_of_Z us) cm_per_us) two) = true).
Proof.
  intros Hok. split.
  - unfold loop, measureDistanceCm.
    destruct (wrap_long (pulseIn e) =? 0); cbn [snd];
      rewrite <- !app_assoc; reflexivity.
  - intros us ->. simpl in Hok.
    destruct (measure_echo_facts us t Hok) as (Hpos & Hneg & _).
    pose proof (measure_echo us t Hok) as Hd.
    unfold loop.
    destruct (measureDistanceCm (Echo us) t) as [d t'] eqn:Hm.
    cbn [fst] in *. rewrite Hneg, <- Hd. split; [reflexivity|exact Hpos].
Qed.

Lemma loop_reports_measured_distance_witness :
  fst (loop (Echo 583) [])
  = Distance (fdiv (fmul (float_of_Z 583) cm_per_us) two).
Proof.
  apply (proj1 (proj2 (loop_reports_measured_distance (Echo 583) []
                         ltac:(unfold echo_ok, ECHO_TIMEOUT_US; lia))
                      583 eq_refl)).
Defined.

End RangingSteps.
